(** * minebot: the headless session (cmd/headless/bot.go)

    A shallow embedding of the packet dispatcher [handlePacket] and its
    registry [players], of the two event loops [eventRxLoop] and
    [eventTxLoop], and of the connect-and-retry part of [main].

    - The registry [map[uint64]*Player] is a [gmap N Player].  Every record
      is allocated by the [AddPlayer] case and is reachable through the map
      only, so the in-place update [player.Position = ...] is the
      replacement of the record stored under the key that was looked up.
    - [uint64] and [int64] fields are carried as [N] and [Z]; the program
      does no arithmetic on them, it only compares and prints them.
    - [float32] arithmetic and [mgl32]'s approximate comparison come from
      third-party modules; the dispatcher is written over an interface
      [Float32], and [Binary32] instantiates it with IEEE 754 binary32.
    - logrus calls are recorded as a list of entries (level, format string,
      arguments), oldest first. *)

From Stdlib Require Import SpecFloat.
From stdpp Require Import gmap strings list.

(** ** float32 and mgl32.Vec3 *)

(** What the dispatcher needs of [float32]: Go's [+] and
    [mgl32.FloatEqual]. *)
Class Float32 (F : Type) := {
  f32_add : F → F → F;
  FloatEqual : F → F → bool;
}.

Section vec3.
Context {F : Type} {F32 : Float32 F}.

(** [type Vec3 [3]float32] *)
Record Vec3 := mkVec3 { v0 : F; v1 : F; v2 : F }.

(** [func (v1 Vec3) Add(v2 Vec3) Vec3]:
    [Vec3{v1[0] + v2[0], v1[1] + v2[1], v1[2] + v2[2]}] *)
Definition Vec3_Add (a b : Vec3) : Vec3 :=
  mkVec3 (f32_add (v0 a) (v0 b)) (f32_add (v1 a) (v1 b)) (f32_add (v2 a) (v2 b)).

(** [func (v1 Vec3) ApproxEqual(v2 Vec3) bool]: the loop over the three
    components returns false at the first pair that is not [FloatEqual]. *)
Definition Vec3_ApproxEqual (a b : Vec3) : bool :=
  if negb (FloatEqual (v0 a) (v0 b)) then false
  else if negb (FloatEqual (v1 a) (v1 b)) then false
  else if negb (FloatEqual (v2 a) (v2 b)) then false
  else true.
End vec3.

Arguments Vec3 F : clear implicits.
Arguments mkVec3 {F} _ _ _.

(** ** The registry *)

(** [type Player struct] *)
Record Player (F : Type) := mkPlayer {
  Username : string;
  EntityRuntimeID : N;
  EntityGlobalID : Z;
  Position : Vec3 F;
}.
Arguments mkPlayer {F} _ _ _ _.
Arguments Username {F} _.
Arguments EntityRuntimeID {F} _.
Arguments EntityGlobalID {F} _.
Arguments Position {F} _.

(** The statement [player.Position = v] on a record of the registry. *)
Definition set_Position {F} (p : Player F) (v : Vec3 F) : Player F :=
  mkPlayer (Username p) (EntityRuntimeID p) (EntityGlobalID p) v.

(** ** Packets

    The packet kinds of [gophertunnel/minecraft/protocol/packet] that
    [handlePacket] looks at, with the fields it reads; every other kind is
    [OtherPacket] with its identifier.  A [nil] interface value is [None]
    of [option Packet]. *)

Record PlayerListEntry := mkEntry {
  entry_Username : string;
  entry_EntityUniqueID : Z;
}.

Inductive Packet (F : Type) :=
  | Text (TextType : N) (NeedsTranslation : bool) (SourceName Message : string)
         (Parameters : list string)
  | PlayerList (Entries : list PlayerListEntry)
  | RemoveEntity (EntityNetworkID : N)
  | AddPlayer (Username : string) (EntityUniqueID : Z) (EntityRuntimeID : N)
              (Position : Vec3 F)
  | ActorEvent (EntityRuntimeID : N) (EventType : N)
  | MovePlayer (EntityRuntimeID : N) (Position : Vec3 F)
  | MoveActorAbsolute (EntityRuntimeID : N) (Position : Vec3 F)
  | MoveActorDelta (EntityRuntimeID : N) (Position : Vec3 F)
  | OtherPacket (ID : N).
Arguments Text {F} _ _ _ _ _.
Arguments PlayerList {F} _.
Arguments RemoveEntity {F} _.
Arguments AddPlayer {F} _ _ _ _.
Arguments ActorEvent {F} _ _.
Arguments MovePlayer {F} _ _.
Arguments MoveActorAbsolute {F} _ _.
Arguments MoveActorDelta {F} _ _.
Arguments OtherPacket {F} _.

(** ** Log entries *)

Inductive Level := DebugLevel | InfoLevel | WarnLevel | ErrorLevel | FatalLevel.

Inductive LogArg (F : Type) :=
  | ArgString (s : string)
  | ArgUint (n : N)
  | ArgInt (z : Z)
  | ArgVec (v : Vec3 F).
Arguments ArgString {F} _.
Arguments ArgUint {F} _.
Arguments ArgInt {F} _.
Arguments ArgVec {F} _.

Record Entry (F : Type) := mkLog {
  entry_level : Level;
  entry_format : string;
  entry_args : list (LogArg F);
}.
Arguments mkLog {F} _ _ _.
Arguments entry_level {F} _.
Arguments entry_format {F} _.
Arguments entry_args {F} _.

Definition Debugf {F} (f : string) (a : list (LogArg F)) := mkLog DebugLevel f a.
Definition Infof {F} (f : string) (a : list (LogArg F)) := mkLog InfoLevel f a.
Definition Warnf {F} (f : string) (a : list (LogArg F)) := mkLog WarnLevel f a.
Definition Errorf {F} (f : string) (a : list (LogArg F)) := mkLog ErrorLevel f a.
Definition Fatalf {F} (f : string) (a : list (LogArg F)) := mkLog FatalLevel f a.

(** ** What the dispatcher imports

    The translation tables of package [lang], [fmt.Sprintf], [text.ANSI] and
    two constants of package [packet]. *)
Class Imports := {
  lang_FormatString : string → string → string;
  lang_GetString : string → string → string;
  fmt_Sprintf : string → list string → string;
  text_ANSI : string → string;
  TextTypeObjectWhisper : N;
  EventTypePlayerDied : N;
}.

(** ** handlePacket *)

Section dispatcher.
Context {F : Type} {F32 : Float32 F} {ext : Imports}.

(** [func handlePacket(conn *minecraft.Conn, pk packet.Packet)], as a
    function of the registry and the packet to the registry afterwards
    and the entries logged.  [conn] is not used by the body.  The [Text]
    case overwrites [txt.Message] in the packet, which nothing reads
    afterwards. *)
Definition handlePacket (players : gmap N (Player F)) (pk : option (Packet F))
    : gmap N (Player F) * list (Entry F) :=
  match pk with
  | None => (players, [])
  | Some (Text ty needsTranslation sourceName message parameters) =>
      if negb (ty =? TextTypeObjectWhisper)%N then
        let message' :=
          if needsTranslation then
            fmt_Sprintf (lang_FormatString "ptbr" message)
                        (map (lang_GetString "ptbr") parameters)
          else message in
        (players,
         [Infof "%s> %s\n" [ArgString sourceName; ArgString (text_ANSI message')]])
      else (players, [])
  | Some (PlayerList entries) =>
      (players,
       Infof "Received player list with %d players\n"
             [ArgInt (Z.of_nat (length entries))]
       :: map (λ v, Infof "User: %s EntityID: %d\n"
                      [ArgString (entry_Username v); ArgInt (entry_EntityUniqueID v)])
              entries)
  | Some (RemoveEntity id) =>
      match players !! id with
      | Some player =>
          (delete id players,
           [Infof "Player %s went of range\n" [ArgString (Username player)]])
      | None => (players, [])
      end
  | Some (AddPlayer username uniqueID runtimeID position) =>
      (<[runtimeID := mkPlayer username runtimeID uniqueID position]> players,
       [Infof "Player %s added to %s\n" [ArgString username; ArgVec position]])
  | Some (ActorEvent runtimeID eventType) =>
      if (eventType =? EventTypePlayerDied)%N then
        (players,
         Debugf "Entity %d died\n" [ArgUint runtimeID]
         :: match players !! runtimeID with
            | Some player => [Warnf "Player %s died\n" [ArgString (Username player)]]
            | None => []
            end)
      else (players, [])
  | Some (MovePlayer runtimeID position)
  | Some (MoveActorAbsolute runtimeID position) =>
      match players !! runtimeID with
      | Some player =>
          if negb (Vec3_ApproxEqual (Position player) position) then
            (<[runtimeID := set_Position player position]> players, [])
          else (players, [])
      | None => (players, [])
      end
  | Some (MoveActorDelta runtimeID position) =>
      match players !! runtimeID with
      | Some player =>
          (<[runtimeID := set_Position player (Vec3_Add (Position player) position)]>
             players, [])
      | None => (players, [])
      end
  | Some (OtherPacket _) => (players, [])
  end.

(** The packets handed to [handlePacket] one after the other, as
    [eventRxLoop] does with what it reads. *)
Fixpoint dispatch (players : gmap N (Player F)) (pks : list (option (Packet F)))
    : gmap N (Player F) * list (Entry F) :=
  match pks with
  | [] => (players, [])
  | pk :: rest =>
      let '(players', out) := handlePacket players pk in
      let '(players'', out') := dispatch players' rest in
      (players'', out ++ out')
  end.
End dispatcher.

(** ** The registry as the specification describes it

    One identifier at a time: the last [AddPlayer] for the identifier, the
    [RemoveEntity] packets after it, and the moves after it applied in
    order.  [on_move held new] is what an absolute move to [new] makes of
    the position [held]. *)

Section registry_by_identifier.
Context {F : Type} {F32 : Float32 F}.
Variable on_move : Vec3 F → Vec3 F → Vec3 F.

(** The name, global identifier and position of the last [AddPlayer] for
    [id], and the packets that follow it. *)
Fixpoint last_add (id : N) (pks : list (option (Packet F)))
    : option (string * Z * Vec3 F * list (option (Packet F))) :=
  match pks with
  | [] => None
  | pk :: rest =>
      match last_add id rest with
      | Some found => Some found
      | None =>
          match pk with
          | Some (AddPlayer username uniqueID runtimeID position) =>
              if (runtimeID =? id)%N then Some (username, uniqueID, position, rest)
              else None
          | _ => None
          end
      end
  end.

(** Some [RemoveEntity] for [id] occurs in [pks]. *)
Fixpoint removed_in (id : N) (pks : list (option (Packet F))) : bool :=
  match pks with
  | [] => false
  | Some (RemoveEntity id') :: rest => (id' =? id)%N || removed_in id rest
  | _ :: rest => removed_in id rest
  end.

(** The moves and delta-moves for [id] in [pks], applied in order to
    [position]. *)
Fixpoint apply_moves (id : N) (position : Vec3 F) (pks : list (option (Packet F)))
    : Vec3 F :=
  match pks with
  | [] => position
  | Some (MovePlayer id' new) :: rest
  | Some (MoveActorAbsolute id' new) :: rest =>
      apply_moves id (if (id' =? id)%N then on_move position new else position) rest
  | Some (MoveActorDelta id' delta) :: rest =>
      apply_moves id (if (id' =? id)%N then Vec3_Add position delta else position) rest
  | _ :: rest => apply_moves id position rest
  end.

(** The entity the registry holds for [id] after [pks], starting from the
    empty registry. *)
Definition entity_after (id : N) (pks : list (option (Packet F))) : option (Player F) :=
  match last_add id pks with
  | Some (username, uniqueID, position, after) =>
      if removed_in id after then None
      else Some (mkPlayer username id uniqueID (apply_moves id position after))
  | None => None
  end.
End registry_by_identifier.

(** An absolute move replaces the position held (section 4.1 of the
    specification: [move(id, position)] replaces position if present). *)
Definition move_replaces {F} (held new : Vec3 F) : Vec3 F := new.

(** An absolute move replaces the position held unless the two are
    approximately equal, in which case the position held stays. *)
Definition move_unless_approx {F} {F32 : Float32 F} (held new : Vec3 F) : Vec3 F :=
  if Vec3_ApproxEqual held new then held else new.

(** ** Errors

    Go's [error] values as far as the loops tell them apart:
    [minecraft.DisconnectError] (a string type without an [Unwrap] method),
    an error whose [Unwrap] method returns another error (the [*net.OpError]
    the connection wraps its errors in, [fmt.Errorf] with [%w]), and any
    other error. *)
Inductive error :=
  | DisconnectError (message : string)
  | Wrapping (text : string) (inner : error)
  | Opaque (text : string).

(** [err.Error()] *)
Definition error_Error (e : error) : string :=
  match e with
  | DisconnectError message => message
  | Wrapping text _ => text
  | Opaque text => text
  end.

(** [errors.Unwrap(err)]: one level, [nil] without an [Unwrap] method. *)
Definition errors_Unwrap (e : error) : option error :=
  match e with
  | Wrapping _ inner => Some inner
  | _ => None
  end.

(** [disconnect, ok := errors.Unwrap(err).(minecraft.DisconnectError)] *)
Definition as_DisconnectError (e : error) : option string :=
  match errors_Unwrap e with
  | Some (DisconnectError message) => Some message
  | _ => None
  end.

(** ** The state the goroutines share *)

Record World (F : Type) := mkWorld {
  players : gmap N (Player F);   (* var players *)
  loopRunning : bool;            (* var loopRunning *)
  stop : nat;                    (* values buffered in [stop], capacity 1 *)
  closes : nat;                  (* calls of [conn.Close()] so far *)
  wg : Z;                        (* counter of the WaitGroup *)
  clock : N;                     (* milliseconds since the start *)
  logged : list (Entry F);       (* entries logged, oldest first *)
}.
Arguments mkWorld {F} _ _ _ _ _ _ _.
Arguments players {F} _.
Arguments loopRunning {F} _.
Arguments stop {F} _.
Arguments closes {F} _.
Arguments wg {F} _.
Arguments clock {F} _.
Arguments logged {F} _.

Section world_updates.
Context {F : Type}.
Implicit Type w : World F.

Definition set_players w m :=
  mkWorld m (loopRunning w) (stop w) (closes w) (wg w) (clock w) (logged w).
Definition set_loopRunning w b :=
  mkWorld (players w) b (stop w) (closes w) (wg w) (clock w) (logged w).
Definition set_stop w n :=
  mkWorld (players w) (loopRunning w) n (closes w) (wg w) (clock w) (logged w).
Definition conn_Close w :=
  mkWorld (players w) (loopRunning w) (stop w) (S (closes w)) (wg w) (clock w) (logged w).
Definition wg_Done w :=
  mkWorld (players w) (loopRunning w) (stop w) (closes w) (wg w - 1)%Z (clock w) (logged w).
Definition advance w (ms : N) :=
  mkWorld (players w) (loopRunning w) (stop w) (closes w) (wg w) (clock w + ms)%N (logged w).
Definition log_entries w (es : list (Entry F)) :=
  mkWorld (players w) (loopRunning w) (stop w) (closes w) (wg w) (clock w) (logged w ++ es).

(** The state [main] leaves when it starts the loops: empty registry,
    [loopRunning] false, [stop] empty, [wg.Add(2)] done. *)
Definition world0 : World F := mkWorld ∅ false 0 0 2 0 [].
End world_updates.

(** ** eventRxLoop *)

(** What [conn.ReadPacket()] returns. *)
Inductive ReadResult (F : Type) :=
  | Read_ok (pk : option (Packet F))
  | Read_err (err : error).
Arguments Read_ok {F} _.
Arguments Read_err {F} _.

(** How a run of the loop over the given reads ends: it panics with the
    disconnect error, it returns, or it is blocked in [ReadPacket] because
    all the given reads have been consumed. *)
Inductive RxOutcome (F : Type) :=
  | RxPanic (disconnect : string) (w : World F)
  | RxReturn (w : World F)
  | RxReading (w : World F).
Arguments RxPanic {F} _ _.
Arguments RxReturn {F} _.
Arguments RxReading {F} _.

Section rx.
Context {F : Type} {F32 : Float32 F} {ext : Imports}.

(** The [for] loop of [eventRxLoop]. *)
Fixpoint rx_for (reads : list (ReadResult F)) (w : World F) : RxOutcome F :=
  match reads with
  | [] => RxReading w
  | Read_err err :: _ =>
      match as_DisconnectError err with
      | Some disconnect =>
          RxPanic disconnect
            (log_entries w [Errorf "Disconnected: %s\n" [ArgString disconnect]])
      | None => RxReturn (set_loopRunning w false)
      end
  | Read_ok pk :: rest =>
      let '(m, out) := handlePacket (players w) pk in
      rx_for rest (log_entries (set_players w m) out)
  end.

(** [func eventRxLoop(conn *minecraft.Conn, wg *sync.WaitGroup)]; the
    deferred [wg.Done()] runs on return and while panicking. *)
Definition eventRxLoop (reads : list (ReadResult F)) (w : World F) : RxOutcome F :=
  match rx_for reads (log_entries w [Infof "RX Event loop started\n" []]) with
  | RxPanic disconnect w' => RxPanic disconnect (wg_Done w')
  | RxReturn w' => RxReturn (wg_Done w')
  | RxReading w' => RxReading w'
  end.
End rx.

(** ** eventTxLoop

    The loop as a machine that takes one step at a time, so that the steps
    of the other goroutines can come in between.  A step that cannot be
    taken (the sleep has not elapsed, nothing is buffered in [stop], the
    function has returned) is [None]. *)

(** Where the goroutine is in [eventTxLoop]. *)
Inductive TxPc :=
  | TxEntry                (* before line 123 *)
  | TxFor                  (* line 128: the test of [for loopRunning] *)
  | TxSleep (until : N)    (* line 129: in [time.Sleep(100ms)] *)
  | TxSelect               (* lines 131-132: in [select { case <-stop: }] *)
  | TxCaseStop             (* lines 133-134: a value was received *)
  | TxClose                (* line 135: [_ = conn.Close()] *)
  | TxReturned.            (* after the deferred calls *)

(** What the goroutine has done so far. *)
Inductive TxEvent := Started | Slept | Received | Closed | Returned.

Record TxState := mkTx {
  pc : TxPc;
  history : list TxEvent;   (* oldest first *)
}.

Definition tx0 : TxState := mkTx TxEntry [].

(** [time.Millisecond * 100], in milliseconds. *)
Definition poll_interval : N := 100.

Section tx.
Context {F : Type}.

Definition eventTxLoop_step (s : TxState) (w : World F) : option (TxState * World F) :=
  match pc s with
  | TxEntry =>
      (* defer wg.Done(); loopRunning = true; the ticker; log.Info *)
      Some (mkTx TxFor (history s ++ [Started]),
            log_entries (set_loopRunning w true) [Infof "TX Event loop started\n" []])
  | TxFor =>
      if loopRunning w then
        Some (mkTx (TxSleep (clock w + poll_interval)) (history s), w)
      else
        (* the loop is left; t.Stop() and wg.Done() run *)
        Some (mkTx TxReturned (history s ++ [Returned]), wg_Done w)
  | TxSleep until =>
      if (until <=? clock w)%N then Some (mkTx TxSelect (history s ++ [Slept]), w)
      else None
  | TxSelect =>
      (* the only case is the receive; there is no default case and the
         ticker case is commented out *)
      match stop w with
      | S n => Some (mkTx TxCaseStop (history s ++ [Received]), set_stop w n)
      | O => None
      end
  | TxCaseStop =>
      Some (mkTx TxClose (history s),
            set_loopRunning (log_entries w [Infof "closing event loop\n" []]) false)
  | TxClose =>
      Some (mkTx TxFor (history s ++ [Closed]), conn_Close w)
  | TxReturned => None
  end.
End tx.

(** What the scheduler and the other goroutines can do between two steps
    of [eventTxLoop].  [main] starts one [eventTxLoop] only, no other
    goroutine sets [loopRunning] to true, and none but [eventTxLoop]
    receives from [stop].  A panic of [eventRxLoop] ends the process, hence
    the schedule. *)
Inductive Action (F : Type) :=
  | RunTx                            (* eventTxLoop takes its next step, unless blocked *)
  | Tick (ms : N)                    (* time passes *)
  | SendStop                         (* line 227: [stop <- struct{}{}], when the buffer has room *)
  | CloseConn                        (* line 231: [conn.Close()] by the interrupt goroutine *)
  | RxHandles (pk : option (Packet F))  (* line 165: eventRxLoop dispatches a packet *)
  | RxReturns.                       (* lines 162-163: eventRxLoop clears [loopRunning] and returns *)
Arguments RunTx {F}.
Arguments Tick {F} _.
Arguments SendStop {F}.
Arguments CloseConn {F}.
Arguments RxHandles {F} _.
Arguments RxReturns {F}.

Section session.
Context {F : Type} {F32 : Float32 F} {ext : Imports}.

Definition act (a : Action F) (st : TxState * World F) : TxState * World F :=
  let '(s, w) := st in
  match a with
  | RunTx => match eventTxLoop_step s w with Some st' => st' | None => st end
  | Tick ms => (s, advance w ms)
  | SendStop => (s, match stop w with O => set_stop w 1 | S _ => w end)
  | CloseConn => (s, conn_Close w)
  | RxHandles pk =>
      let '(m, out) := handlePacket (players w) pk in
      (s, log_entries (set_players w m) out)
  | RxReturns => (s, wg_Done (set_loopRunning w false))
  end.

Fixpoint run (sched : list (Action F)) (st : TxState * World F) : TxState * World F :=
  match sched with
  | [] => st
  | a :: rest => run rest (act a st)
  end.
End session.

(** [a] is the interrupt goroutine's send on [stop]. *)
Definition is_SendStop {F} (a : Action F) : bool :=
  match a with SendStop => true | _ => false end.

(** [a] is a turn of [eventTxLoop]. *)
Definition is_RunTx {F} (a : Action F) : bool :=
  match a with RunTx => true | _ => false end.

(** The number of turns of [eventTxLoop] in a schedule. *)
Definition tx_turns {F} (sched : list (Action F)) : nat :=
  length (filter (λ a, is_RunTx a = true) sched).

(** ** main

    [main] as the sequence of things it does, given what the calls it makes
    return: the configuration and token calls, and the successive results
    of [Dial]. *)

Inductive Goroutine := go_interrupt | go_eventRxLoop | go_eventTxLoop.

#[global] Instance Goroutine_eq_dec : EqDecision Goroutine.
Proof. solve_decision. Defined.

Inductive MainEvent (F : Type) :=
  | Logs (e : Entry F)
  | Dials                      (* lines 195-197: [minecraft.Dialer{...}.Dial] *)
  | Sleeps (ms : N)            (* [time.Sleep] *)
  | Defers_conn_Close          (* lines 210-212 *)
  | WaitGroup_Add (n : Z)      (* line 217 *)
  | Go (g : Goroutine)         (* a [go] statement *)
  | WaitGroup_Wait             (* line 239 *)
  | Exits (code : Z).          (* [os.Exit] of [log.Fatalf] *)
Arguments Logs {F} _.
Arguments Dials {F}.
Arguments Sleeps {F} _.
Arguments Defers_conn_Close {F}.
Arguments WaitGroup_Add {F} _.
Arguments Go {F} _.
Arguments WaitGroup_Wait {F}.
Arguments Exits {F} _.

(** What the calls of [main] return.  An error is [Some], success [None];
    [dial_results] are the results of the successive calls of [Dial]. *)
Record Startup := mkStartup {
  LoadConfig : string + error;          (* [cfg.Connection.RemoteAddress] or the error *)
  LoadToken : option error;
  RequestLiveToken : option error;
  SaveToken : option error;
  dial_results : list (option error);
}.

(** [time.Second], in milliseconds. *)
Definition retry_delay : N := 1000.

Section supervisor.
Context {F : Type} {ext : Imports}.

(** Lines 199-204: the entry logged for a failed [Dial]. *)
Definition dial_error_entry (err : error) : Entry F :=
  match as_DisconnectError err with
  | Some disconnect =>
      Errorf "Disconnected: %s\n" [ArgString (lang_GetString "ptbr" disconnect)]
  | None => Errorf "Error handling connection: %s\n" [ArgString (error_Error err)]
  end.

(** Lines 194-209: [for !connected].  The boolean is [connected] when the
    given results are used up. *)
Fixpoint dial_loop (results : list (option error)) : list (MainEvent F) * bool :=
  match results with
  | [] => ([], false)
  | None :: _ => ([Dials], true)
  | Some err :: rest =>
      let '(events, connected) := dial_loop rest in
      (Dials :: Logs (dial_error_entry err) :: Sleeps retry_delay :: events, connected)
  end.

(** What one failed attempt leaves in the sequence of events: an
    iteration of the loop through its [err != nil] branch. *)
Definition failed_attempt (err : error) : list (MainEvent F) :=
  [Dials; Logs (dial_error_entry err); Sleeps retry_delay].

(** Lines 210-239, once connected. *)
Definition start_session : list (MainEvent F) :=
  [Defers_conn_Close; WaitGroup_Add 2; Go go_interrupt;
   Logs (Infof "Bot started and connected\n" []);
   Go go_eventRxLoop; Go go_eventTxLoop; WaitGroup_Wait].

(** Lines 191-239. *)
Definition connect_and_run (address : string) (results : list (option error))
    : list (MainEvent F) :=
  let '(events, connected) := dial_loop results in
  Logs (Infof "Connecting to %s\n" [ArgString address])
  :: events ++ (if connected then start_session else []).

(** [func main()] *)
Definition main (s : Startup) : list (MainEvent F) :=
  Logs (Infof "Loading configuration\n" [])
  :: match LoadConfig s with
     | inr err =>
         [Logs (Fatalf "error loading config: %s\n" [ArgString (error_Error err)]);
          Exits 1]
     | inl address =>
         Logs (Infof "Loading Xbox Token\n" [])
         :: match LoadToken s with
            | None => connect_and_run address (dial_results s)
            | Some _ =>
                match RequestLiveToken s with
                | Some err =>
                    [Logs (Fatalf "error getting token: %s\n" [ArgString (error_Error err)]);
                     Exits 1]
                | None =>
                    match SaveToken s with
                    | Some err =>
                        [Logs (Fatalf "error saving token: %s\n"
                                      [ArgString (error_Error err)]);
                         Exits 1]
                    | None => connect_and_run address (dial_results s)
                    end
                end
            end
     end.
End supervisor.

(** The entries of level [ErrorLevel] among the events. *)
Definition error_entries {F} (events : list (MainEvent F)) : list (Entry F) :=
  flat_map (λ ev, match ev with
                  | Logs e => match entry_level e with ErrorLevel => [e] | _ => [] end
                  | _ => []
                  end) events.

(** The durations slept, in order. *)
Definition sleeps {F} (events : list (MainEvent F)) : list N :=
  flat_map (λ ev, match ev with Sleeps ms => [ms] | _ => [] end) events.

(** How many times goroutine [g] is started. *)
Fixpoint started {F} (g : Goroutine) (events : list (MainEvent F)) : nat :=
  match events with
  | [] => 0
  | Go g' :: rest => (if decide (g' = g) then 1 else 0) + started g rest
  | _ :: rest => started g rest
  end.

(** ** IEEE 754 binary32 and mgl32's comparison

    [float32] as the binary32 instance of the standard library's
    specification of floating-point numbers (precision 24, exponents below
    128, rounding to nearest even).  [FloatEqualThreshold], [Epsilon] and
    [MinNormal] are those of [mgl32/util.go].  The instance serves to run
    the dispatcher on numbers; the theorems on the dispatcher hold for every
    instance of [Float32]. *)
Module Binary32.
Definition prec : Z := 24.
Definition emax : Z := 128.

Definition float32 : Type := spec_float.

Definition add : float32 → float32 → float32 := SFadd prec emax.
Definition sub : float32 → float32 → float32 := SFsub prec emax.
Definition mul : float32 → float32 → float32 := SFmul prec emax.
Definition div : float32 → float32 → float32 := SFdiv prec emax.
Definition Abs : float32 → float32 := SFabs.
Definition eq : float32 → float32 → bool := SFeqb.
Definition lt : float32 → float32 → bool := SFltb.

Definition zero : float32 := S754_zero false.
Definition one : float32 := S754_finite false 8388608 (-23).

(** [var Epsilon float32 = 1e-10]: the binary32 number nearest to 1e-10
    is 14411519 * 2^-57. *)
Definition Epsilon : float32 := S754_finite false 14411519 (-57).

(** [MinNormal = float32(1.1754943508222875e-38)], that is 2^-126. *)
Definition MinNormal : float32 := S754_finite false 8388608 (-149).

(** [func FloatEqualThreshold(a, b, epsilon float32) bool] *)
Definition FloatEqualThreshold (a b epsilon : float32) : bool :=
  if eq a b then true
  else
    let diff := Abs (sub a b) in
    if eq (mul a b) zero || lt diff MinNormal then lt diff (mul epsilon epsilon)
    else lt (div diff (add (Abs a) (Abs b))) epsilon.

(** [func FloatEqual(a, b float32) bool] *)
Definition FloatEqual (a b : float32) : bool := FloatEqualThreshold a b Epsilon.

#[export] Instance float32_ops : Float32 float32 := Build_Float32 float32 add FloatEqual.

(** 2^-100, about 7.9e-31. *)
Definition tiny : float32 := S754_finite false 8388608 (-123).
Definition two : float32 := S754_finite false 8388608 (-22).
Definition three : float32 := S754_finite false 12582912 (-22).

Definition origin : Vec3 float32 := mkVec3 zero zero zero.
End Binary32.

(** Stand-ins for the imports, to run the model: no translation table, the
    format string returned as it is.  The two [packet] constants are given
    the values 9 and 3; none of the results below depends on them. *)
Module Sample.
#[export] Instance imports : Imports :=
  {| lang_FormatString := λ _ s, s;
     lang_GetString := λ _ s, s;
     fmt_Sprintf := λ f _, f;
     text_ANSI := λ s, s;
     TextTypeObjectWhisper := 9;
     EventTypePlayerDied := 3 |}.
End Sample.

(** Concrete packets, registries and schedules on binary32, on which the
    model is run below. *)
Module Scenario.
Import Binary32.

Definition alice : Player float32 := mkPlayer "Alice" 1 7 origin.
Definition bob : Player float32 := mkPlayer "Bob" 2 8 (mkVec3 one two three).

(** A registry that holds Alice only. *)
Definition registry : gmap N (Player float32) := {[1%N := alice]}.

(** 2^-100 away from the origin along the first axis. *)
Definition nudged : Vec3 float32 := mkVec3 tiny zero zero.

Definition add_alice : option (Packet float32) := Some (AddPlayer "Alice" 7 1 origin).
Definition add_bob : option (Packet float32) :=
  Some (AddPlayer "Bob" 8 2 (mkVec3 one two three)).

(** Alice is added at the origin and then reported at [nudged]. *)
Definition add_then_nudge : list (option (Packet float32)) :=
  [add_alice; Some (MovePlayer 1 nudged)].

(** The scenario of section 8 of the specification:
    Add(id=1, "Alice", (0,0,0)), Move(id=1, (1,0,0)),
    DeltaMove(id=1, (0,1,0)), Remove(id=1). *)
Definition add_move_delta_remove : list (option (Packet float32)) :=
  [add_alice; Some (MovePlayer 1 (mkVec3 one zero zero));
   Some (MoveActorDelta 1 (mkVec3 zero one zero)); Some (RemoveEntity 1)].

(** The loop starts, sleeps its 100 ms and enters the [select]; the
    interrupt goroutine sends on [stop]; the loop receives. *)
Definition until_received : list (Action float32) :=
  [RunTx; RunTx; Tick 100; RunTx; SendStop; RunTx].

(** Three more turns of the loop, with the interrupt goroutine's own
    [conn.Close()] and the return of [eventRxLoop] in between. *)
Definition then_stopping : list (Action float32) :=
  [RunTx; CloseConn; RunTx; RxReturns; RunTx].

(** The loop starts, sleeps and enters the [select]; [eventRxLoop]
    returns on a read error; then a minute passes, the loop being given a
    turn every 100 ms, and nothing is ever sent on [stop]. *)
Definition a_minute_without_signal : list (Action float32) :=
  [RunTx; RunTx; Tick 100; RunTx; RxReturns]
  ++ mjoin (replicate 600 [Tick 100; RunTx]).
End Scenario.

(** Every record of a registry is stored under its own runtime
    identifier. *)
Definition keyed_by_runtime_id {F} (m : gmap N (Player F)) : Prop :=
  ∀ id p, m !! id = Some p → EntityRuntimeID p = id.

(** The histories [eventTxLoop] can have at each point of its body;
    [running] is the value of [loopRunning]. *)
Definition tx_inv {F} (st : TxState * World F) : Prop :=
  let '(s, w) := st in
  match pc s with
  | TxEntry => history s = []
  | TxFor =>
      history s = [Started]
      ∨ (history s = [Started; Slept; Received; Closed] ∧ loopRunning w = false)
  | TxSleep _ => history s = [Started]
  | TxSelect => history s = [Started; Slept]
  | TxCaseStop => history s = [Started; Slept; Received]
  | TxClose => history s = [Started; Slept; Received] ∧ loopRunning w = false
  | TxReturned =>
      history s = [Started; Returned]
      ∨ history s = [Started; Slept; Received; Closed; Returned]
  end.

(** What holds of [eventTxLoop] as long as nothing has been sent on
    [stop]: the channel is empty and the loop is at most in the [select] of
    its first iteration, unless it returned without entering the loop. *)
Definition waiting {F} (st : TxState * World F) : Prop :=
  let '(s, w) := st in
  stop w = 0
  ∧ match pc s with
    | TxEntry => history s = []
    | TxFor | TxSleep _ => history s = [Started]
    | TxSelect => history s = [Started; Slept]
    | TxReturned => history s = [Started; Returned]
    | TxCaseStop | TxClose => False
    end.

(** No action of the schedule is a send on [stop]. *)
Definition no_signal {F} (sched : list (Action F)) : bool :=
  forallb (λ a, negb (is_SendStop a)) sched.

(** All the histories of [tx_inv]. *)
Definition tx_histories : list (list TxEvent) :=
  [[]; [Started]; [Started; Slept]; [Started; Slept; Received];
   [Started; Slept; Received; Closed]; [Started; Returned];
   [Started; Slept; Received; Closed; Returned]].

(** The way from the receive on [stop] to the return: [n] steps of
    [eventTxLoop] are left, and the connection had been closed [c] times
    when the value was received. *)
Definition stopping {F} (c : nat) (n : nat) (st : TxState * World F) : Prop :=
  let '(s, w) := st in
  match n with
  | 3 => pc s = TxCaseStop ∧ history s = [Started; Slept; Received] ∧ c ≤ closes w
  | 2 => pc s = TxClose ∧ history s = [Started; Slept; Received]
         ∧ loopRunning w = false ∧ c ≤ closes w
  | 1 => pc s = TxFor ∧ history s = [Started; Slept; Received; Closed]
         ∧ loopRunning w = false ∧ c < closes w
  | 0 => pc s = TxReturned ∧ history s = [Started; Slept; Received; Closed; Returned]
         ∧ c < closes w
  | _ => False
  end.

(** ** Packets and identifiers *)

(** The runtime identifier whose entry of the registry a packet can change,
    if it can change any. *)
Definition packet_id {F} (pk : option (Packet F)) : option N :=
  match pk with
  | Some (RemoveEntity id) | Some (AddPlayer _ _ id _) | Some (MovePlayer id _)
  | Some (MoveActorAbsolute id _) | Some (MoveActorDelta id _) => Some id
  | _ => None
  end.

(** The packet can change the entry of [id]. *)
Definition names {F} (id : N) (pk : option (Packet F)) : bool :=
  match packet_id pk with
  | Some id' => (id' =? id)%N
  | None => false
  end.

(** The packet is neither an [AddPlayer] nor a [RemoveEntity]. *)
Definition keeps_entities {F} (pk : option (Packet F)) : bool :=
  match pk with
  | Some (AddPlayer _ _ _ _) | Some (RemoveEntity _) => false
  | _ => true
  end.

(** The number of [AddPlayer] packets. *)
Fixpoint adds {F} (pks : list (option (Packet F))) : nat :=
  match pks with
  | [] => 0
  | Some (AddPlayer _ _ _ _) :: rest => S (adds rest)
  | _ :: rest => adds rest
  end.

(** What identifies a player: everything but the position. *)
Definition identity {F} (p : Player F) : string * N * Z :=
  (Username p, EntityRuntimeID p, EntityGlobalID p).

(** The two packets do not name the same runtime identifier. *)
Definition independent {F} (pk1 pk2 : option (Packet F)) : bool :=
  match packet_id pk1, packet_id pk2 with
  | Some id1, Some id2 => negb (id1 =? id2)%N
  | _, _ => true
  end.

(** ** Outcomes of the loops and of [main] *)

(** The shared state in which a run of [eventRxLoop] ends or waits. *)
Definition outcome_world {F} (out : RxOutcome F) : World F :=
  match out with
  | RxPanic _ w | RxReturn w | RxReading w => w
  end.

(** The time that passes during a schedule, in milliseconds. *)
Fixpoint elapsed {F} (sched : list (Action F)) : N :=
  match sched with
  | [] => 0
  | Tick ms :: rest => ms + elapsed rest
  | _ :: rest => elapsed rest
  end.

(** [eventTxLoop] is asleep or in its [select]. *)
Definition parked (s : TxState) : bool :=
  match pc s with
  | TxSleep _ | TxSelect => true
  | _ => false
  end.

(** The configuration and a token are obtained: none of the three
    [log.Fatalf] of [main] is reached. *)
Definition startup_ok (s : Startup) : bool :=
  match LoadConfig s with
  | inr _ => false
  | inl _ =>
      match LoadToken s with
      | None => true
      | Some _ =>
          match RequestLiveToken s, SaveToken s with
          | None, None => true
          | _, _ => false
          end
      end
  end.

(** Some call of [Dial] succeeds. *)
Definition dial_succeeds (results : list (option error)) : bool :=
  existsb (λ r, match r with None => true | Some _ => false end) results.

(** The calls of [Dial] that fail before the first one that succeeds. *)
Fixpoint failures_before_success (results : list (option error)) : list error :=
  match results with
  | Some err :: rest => err :: failures_before_success rest
  | _ => []
  end.

(** The number of calls of [Dial]. *)
Fixpoint dials {F} (events : list (MainEvent F)) : nat :=
  match events with
  | [] => 0
  | Dials :: rest => S (dials rest)
  | _ :: rest => dials rest
  end.

(** The exit codes, in order. *)
Definition exits {F} (events : list (MainEvent F)) : list Z :=
  flat_map (λ ev, match ev with Exits code => [code] | _ => [] end) events.

(** [eventTxLoop] has not got past its first sleep, and that sleep does
    not end before [start + poll_interval]. *)
Definition not_yet_slept {F} (start : N) (st : TxState * World F) : Prop :=
  let '(s, w) := st in
  (start ≤ clock w)%N
  ∧ match pc s with
    | TxEntry => history s = []
    | TxFor => history s = [Started]
    | TxSleep until => history s = [Started] ∧ (start + poll_interval ≤ until)%N
    | TxReturned => history s = [Started; Returned]
    | TxSelect | TxCaseStop | TxClose => False
    end.

(** ** The session: the goroutines of [main] together

    The interrupt goroutine of lines 220-233, the wait of [main] at line
    239 with its deferred [conn.Close()], [eventRxLoop] one read at a time,
    and [eventTxLoop] as above, run by a scheduler one turn at a time. *)

(** Where the interrupt goroutine is. *)
Inductive IntPc :=
  | IntEntry                   (* started, not yet at line 221 *)
  | IntWaiting                 (* line 221: blocked in [<-c] *)
  | IntSignalled               (* line 221: a signal was received from [c] *)
  | IntSelect (deadline : N)   (* lines 226-230: in the [select]; the timer fires at [deadline] *)
  | IntClose                   (* line 231: [_ = conn.Close()] *)
  | IntDone.                   (* after line 232 *)

(** What the interrupt goroutine has done so far. *)
Inductive IntEvent := GotSignal | Sent | TimedOut | ClosedConn.

Record IntState := mkInt {
  ipc : IntPc;
  ihistory : list IntEvent;   (* oldest first *)
}.

Definition int0 : IntState := mkInt IntEntry [].

(** [time.Second * 5], in milliseconds. *)
Definition shutdown_timeout : N := 5000.

Section interrupt.
Context {F : Type}.

(** One step of the interrupt goroutine.  In the [select], the send is
    ready when [stop] has room and the timer case when the deadline has
    passed; when both are ready Go takes either, here the timer case when
    [timer_first] is set.  [c] is unbuffered, so the receive of line 221
    happens in the turn that delivers the signal ([OsSignal] below). *)
Definition interrupt_step (timer_first : bool) (s : IntState) (w : World F)
    : option (IntState * World F) :=
  match ipc s with
  | IntEntry => Some (mkInt IntWaiting (ihistory s), w)
  | IntWaiting => None
  | IntSignalled =>
      (* log.Info("Closing bot\n"); t := time.NewTimer(time.Second * 5) *)
      Some (mkInt (IntSelect (clock w + shutdown_timeout)) (ihistory s ++ [GotSignal]),
            log_entries w [Infof "Closing bot\n" []])
  | IntSelect deadline =>
      let send := (mkInt IntClose (ihistory s ++ [Sent]), set_stop w 1) in
      let timeout := (mkInt IntClose (ihistory s ++ [TimedOut]),
                      log_entries w [Errorf "timeout waiting close" []]) in
      match stop w, (deadline <=? clock w)%N with
      | O, true => Some (if timer_first then timeout else send)
      | O, false => Some send
      | S _, true => Some timeout
      | S _, false => None
      end
  | IntClose =>
      (* _ = conn.Close(); log.Infoln("Gotcha. KTHXBYE") *)
      Some (mkInt IntDone (ihistory s ++ [ClosedConn]),
            log_entries (conn_Close w) [Infof "Gotcha. KTHXBYE" []])
  | IntDone => None
  end.
End interrupt.

(** Where [eventRxLoop] is. *)
Inductive RxPc :=
  | RxEntry    (* before line 153 *)
  | RxLoop     (* lines 155-166 *)
  | RxEnded.   (* returned or panicked *)

(** The process: running, ended by the return of [main], or ended by the
    panic of [eventRxLoop]. *)
Inductive Process := Running | Exited | Panicked (disconnect : string).

Record Session (F : Type) := mkSession {
  s_proc : Process;
  s_tx : TxState;
  s_rx : RxPc;
  s_int : IntState;
  s_world : World F;
}.
Arguments mkSession {F} _ _ _ _ _.
Arguments s_proc {F} _.
Arguments s_tx {F} _.
Arguments s_rx {F} _.
Arguments s_int {F} _.
Arguments s_world {F} _.

(** What the scheduler and the outside world do, one turn at a time. *)
Inductive Turn (F : Type) :=
  | TurnTx                          (* [eventTxLoop] takes its next step *)
  | TurnRx (read : ReadResult F)    (* [eventRxLoop] takes its next step; [read] is
                                       what [ReadPacket] returns if it comes to read *)
  | TurnInt (timer_first : bool)    (* the interrupt goroutine takes its next step *)
  | TurnMain                        (* [main] is woken from [wg.Wait()] if the counter is 0 *)
  | Elapse (ms : N)                 (* time passes *)
  | OsSignal.                       (* an interrupt or SIGTERM reaches the process *)
Arguments TurnTx {F}.
Arguments TurnRx {F} _.
Arguments TurnInt {F} _.
Arguments TurnMain {F}.
Arguments Elapse {F} _.
Arguments OsSignal {F}.

Section session_turns.
Context {F : Type} {F32 : Float32 F} {ext : Imports}.

(** The session as [main] leaves it at line 239: the three goroutines
    started, none of them run yet. *)
Definition session0 : Session F := mkSession Running tx0 RxEntry int0 world0.

(** One turn.  Nothing runs once the process has ended.  A signal is
    delivered only to a goroutine blocked in [<-c]: [signal.Notify] does not
    block on an unbuffered channel, it drops the signal. *)
Definition turn (t : Turn F) (x : Session F) : Session F :=
  match s_proc x with
  | Running =>
      let w := s_world x in
      match t with
      | TurnTx =>
          match eventTxLoop_step (s_tx x) w with
          | Some (s, w') => mkSession Running s (s_rx x) (s_int x) w'
          | None => x
          end
      | TurnRx read =>
          match s_rx x with
          | RxEntry =>
              mkSession Running (s_tx x) RxLoop (s_int x)
                        (log_entries w [Infof "RX Event loop started\n" []])
          | RxLoop =>
              match rx_for [read] w with
              | RxReading w' => mkSession Running (s_tx x) RxLoop (s_int x) w'
              | RxReturn w' => mkSession Running (s_tx x) RxEnded (s_int x) (wg_Done w')
              | RxPanic disconnect w' =>
                  mkSession (Panicked disconnect) (s_tx x) RxEnded (s_int x) (wg_Done w')
              end
          | RxEnded => x
          end
      | TurnInt timer_first =>
          match interrupt_step timer_first (s_int x) w with
          | Some (i, w') => mkSession Running (s_tx x) (s_rx x) i w'
          | None => x
          end
      | TurnMain =>
          (* wg.Wait() returns, main returns, the deferred conn.Close() runs *)
          if (wg w =? 0)%Z then
            mkSession Exited (s_tx x) (s_rx x) (s_int x) (conn_Close w)
          else x
      | Elapse ms => mkSession Running (s_tx x) (s_rx x) (s_int x) (advance w ms)
      | OsSignal =>
          match ipc (s_int x) with
          | IntWaiting =>
              mkSession Running (s_tx x) (s_rx x)
                        (mkInt IntSignalled (ihistory (s_int x))) w
          | _ => x
          end
      end
  | _ => x
  end.

Fixpoint play (turns : list (Turn F)) (x : Session F) : Session F :=
  match turns with
  | [] => x
  | t :: rest => play rest (turn t x)
  end.
End session_turns.

(** The number of items of [l] that [f] recognises. *)
Fixpoint count {A} (f : A → bool) (l : list A) : nat :=
  match l with
  | [] => 0
  | x :: rest => (if f x then 1 else 0) + count f rest
  end.

Definition is_Received (e : TxEvent) : bool :=
  match e with Received => true | _ => false end.
Definition is_Closed (e : TxEvent) : bool :=
  match e with Closed => true | _ => false end.
Definition is_Sent (e : IntEvent) : bool :=
  match e with Sent => true | _ => false end.
Definition is_ClosedConn (e : IntEvent) : bool :=
  match e with ClosedConn => true | _ => false end.
Definition is_OsSignal {F} (t : Turn F) : bool :=
  match t with OsSignal => true | _ => false end.

(** [eventTxLoop] has returned. *)
Definition tx_returned (s : TxState) : bool :=
  match pc s with TxReturned => true | _ => false end.

(** [eventRxLoop] has ended. *)
Definition rx_ended (r : RxPc) : bool :=
  match r with RxEnded => true | _ => false end.

(** The process was ended by the return of [main]. *)
Definition exited (p : Process) : bool :=
  match p with Exited => true | _ => false end.


(** The histories of the interrupt goroutine at each point of its body. *)
Definition int_inv (s : IntState) : Prop :=
  match ipc s with
  | IntEntry | IntWaiting | IntSignalled => ihistory s = []
  | IntSelect _ => ihistory s = [GotSignal]
  | IntClose => ihistory s = [GotSignal; Sent] ∨ ihistory s = [GotSignal; TimedOut]
  | IntDone =>
      ihistory s = [GotSignal; Sent; ClosedConn]
      ∨ ihistory s = [GotSignal; TimedOut; ClosedConn]
  end.

(** What holds of every session reached from [session0]. *)
Definition session_inv {F} (x : Session F) : Prop :=
  let w := s_world x in
  tx_inv (s_tx x, w)
  ∧ int_inv (s_int x)
  ∧ stop w + count is_Received (history (s_tx x)) = count is_Sent (ihistory (s_int x))
  ∧ closes w = count is_Closed (history (s_tx x))
               + count is_ClosedConn (ihistory (s_int x))
               + (if exited (s_proc x) then 1 else 0)
  ∧ (wg w + (if tx_returned (s_tx x) then 1 else 0)
     + (if rx_ended (s_rx x) then 1 else 0) = 2)%Z
  ∧ (exited (s_proc x) = true → wg w = 0%Z)
  ∧ match pc (s_tx x) with
    | TxSleep until => (until ≤ clock w + poll_interval)%N
    | _ => True
    end.

(** No turn of the list is a signal to the process. *)
Definition no_os_signal {F} (turns : list (Turn F)) : bool :=
  forallb (λ t, negb (is_OsSignal t)) turns.

(** What holds of a session as long as no signal has reached the process:
    the interrupt goroutine has done nothing, and [eventTxLoop] is as
    described by [waiting]. *)
Definition quiet {F} (x : Session F) : Prop :=
  waiting (s_tx x, s_world x)
  ∧ ihistory (s_int x) = []
  ∧ match ipc (s_int x) with IntEntry | IntWaiting => True | _ => False end.

(** An upper bound on the steps [eventTxLoop] still has to take before it
    has returned, once a value for it is, or has been, in [stop]. *)
Definition rank {F} (x : Session F) : nat :=
  match pc (s_tx x) with
  | TxEntry => 7
  | TxFor => if loopRunning (s_world x) then 6 else 1
  | TxSleep _ => 5
  | TxSelect => 4
  | TxCaseStop => 3
  | TxClose => 2
  | TxReturned => 0
  end.


(** Concrete packets, schedules and sessions on binary32 for the
    properties of the second part. *)
Module Sessions.
Import Binary32 Scenario.

(** Moves, a delta, a chat line, a roster and a nil packet: nothing that
    adds or removes. *)
Definition traffic : list (option (Packet float32)) :=
  [Some (MovePlayer 1 (mkVec3 one zero zero));
   Some (MoveActorDelta 1 (mkVec3 zero one zero));
   Some (Text 1 false "Bob" "hello" []);
   Some (PlayerList [mkEntry "Alice" 7; mkEntry "Bob" 8]);
   Some (MoveActorAbsolute 2 (mkVec3 one one one));
   None].

Definition move_alice : option (Packet float32) :=
  Some (MovePlayer 1 (mkVec3 one zero zero)).

(** A value is sent on [stop] at once, but only 99 ms pass. *)
Definition too_early : list (Action float32) :=
  [RunTx; SendStop; RunTx; Tick 99; RunTx; RunTx].

(** [eventRxLoop] returns before [eventTxLoop] has started. *)
Definition rx_returns_first : list (Action float32) := [RxReturns; Tick 10].

Definition afterwards : list (Action float32) :=
  [Tick 100; RunTx; RxReturns; Tick 1000; RunTx].

(** The interrupt goroutine gets to [<-c], a signal arrives, and the
    goroutine gets to its [select]. *)
Definition signalled : list (Turn float32) :=
  [TurnInt false; OsSignal; TurnInt false].

(** The same, and the goroutine sends on [stop]. *)
Definition interrupted : list (Turn float32) := signalled ++ [TurnInt false].

Definition closed_read : ReadResult float32 :=
  Read_err (Wrapping "read packet" (Opaque "use of closed network connection")).

(** Both loops start; the read fails before [eventTxLoop] has tested
    [loopRunning]; no signal comes; [main] is woken. *)
Definition early_read_error : list (Turn float32) :=
  [TurnInt false; TurnTx; TurnRx closed_read; TurnRx closed_read; TurnTx;
   Elapse 60000; TurnTx; TurnMain].

(** After the send: the loops start and [eventTxLoop] goes to sleep. *)
Definition loops_start : list (Turn float32) :=
  [TurnRx (Read_ok add_alice); TurnTx; TurnRx (Read_ok add_alice); TurnTx].

(** [eventTxLoop] wakes up, receives, closes and returns, while the
    interrupt goroutine closes the connection too and the pending read
    fails. *)
Definition loops_stop : list (Turn float32) :=
  [TurnTx; TurnTx; TurnInt false; TurnTx; TurnRx closed_read; TurnTx; TurnTx; TurnMain].
End Sessions.

(** * Properties of the dispatcher *)

Section dispatcher_facts.
Context {F : Type} {F32 : Float32 F} {ext : Imports}.
Implicit Types (m : gmap N (Player F)) (pk : option (Packet F)) (id : N).

Lemma dispatch_cons m pk pks :
  (dispatch m (pk :: pks)).1 = (dispatch (handlePacket m pk).1 pks).1.
Proof.
  simpl. destruct (handlePacket m pk) as [m' out]. simpl.
  destruct (dispatch m' pks) as [m'' out']. reflexivity.
Qed.

Lemma dispatch_app m pks1 pks2 :
  (dispatch m (pks1 ++ pks2)).1 = (dispatch (dispatch m pks1).1 pks2).1.
Proof.
  revert m. induction pks1 as [|pk pks1 IH]; intros m; [reflexivity|].
  rewrite <- app_comm_cons, !dispatch_cons. apply IH.
Qed.

(** A packet touches at most the entry of the identifier it names. *)
Lemma handlePacket_other m pk id :
  match pk with
  | Some (RemoveEntity id') | Some (AddPlayer _ _ id' _) | Some (MovePlayer id' _)
  | Some (MoveActorAbsolute id' _) | Some (MoveActorDelta id' _) => id' ≠ id
  | _ => True
  end →
  (handlePacket m pk).1 !! id = m !! id.
Proof.
  destruct pk as [[ty nt src msg ps|es|id'|n g id' p|id' ev|id' p|id' p|id' p|k]|];
    simpl; intros Hne; try reflexivity.
  - destruct (negb _); reflexivity.
  - destruct (m !! id'); simpl; [apply lookup_delete_ne; exact Hne|reflexivity].
  - apply lookup_insert_ne; exact Hne.
  - destruct (_ =? _)%N; reflexivity.
  - destruct (m !! id'); [|reflexivity].
    destruct (negb _); simpl; [apply lookup_insert_ne; exact Hne|reflexivity].
  - destruct (m !! id'); [|reflexivity].
    destruct (negb _); simpl; [apply lookup_insert_ne; exact Hne|reflexivity].
  - destruct (m !! id'); simpl; [apply lookup_insert_ne; exact Hne|reflexivity].
Qed.

Lemma handlePacket_add m username uniqueID id position :
  (handlePacket m (Some (AddPlayer username uniqueID id position))).1 !! id
  = Some (mkPlayer username id uniqueID position).
Proof. simpl. apply lookup_insert_eq. Qed.

Lemma handlePacket_remove m id :
  (handlePacket m (Some (RemoveEntity id))).1 !! id = None.
Proof.
  simpl. destruct (m !! id) eqn:E; simpl; [apply lookup_delete_eq|exact E].
Qed.

Lemma handlePacket_move m id new :
  (handlePacket m (Some (MovePlayer id new))).1 !! id
  = (λ p, set_Position p (move_unless_approx (Position p) new)) <$> m !! id
  ∧ (handlePacket m (Some (MoveActorAbsolute id new))).1 !! id
  = (λ p, set_Position p (move_unless_approx (Position p) new)) <$> m !! id.
Proof.
  simpl. unfold move_unless_approx.
  destruct (m !! id) as [p|] eqn:E; simpl; [|rewrite E; split; reflexivity].
  destruct (Vec3_ApproxEqual (Position p) new); simpl.
  - rewrite E. destruct p; split; reflexivity.
  - rewrite lookup_insert_eq. split; reflexivity.
Qed.

Lemma handlePacket_delta m id delta :
  (handlePacket m (Some (MoveActorDelta id delta))).1 !! id
  = (λ p, set_Position p (Vec3_Add (Position p) delta)) <$> m !! id.
Proof.
  simpl. destruct (m !! id) as [p|] eqn:E; simpl; [|exact E].
  apply lookup_insert_eq.
Qed.

(** The entry of [id] after a run of the dispatcher from any registry:
    decided by the last [AddPlayer] for [id] if there is one, and by the
    entry the registry had otherwise. *)
Lemma dispatch_lookup m pks id :
  (dispatch m pks).1 !! id =
  match last_add id pks with
  | Some (username, uniqueID, position, after) =>
      if removed_in id after then None
      else Some (mkPlayer username id uniqueID
                          (apply_moves move_unless_approx id position after))
  | None =>
      if removed_in id pks then None
      else (λ p, set_Position p (apply_moves move_unless_approx id (Position p) pks))
             <$> m !! id
  end.
Proof.
  revert m. induction pks as [|pk rest IH]; intros m.
  - simpl. destruct (m !! id) as [[]|]; reflexivity.
  - rewrite dispatch_cons, IH. simpl last_add.
    destruct (last_add id rest) as [[[[n g] p] after]|]; [reflexivity|].
    destruct pk as [[ty nt src msg ps|es|id'|n g id' p|id' ev|id' p|id' p|id' p|k]|];
      try (rewrite handlePacket_other by exact I; reflexivity).
    + (* RemoveEntity *)
      simpl removed_in. destruct (N.eqb_spec id' id) as [->|Hne].
      * rewrite handlePacket_remove. simpl. destruct (removed_in id rest); reflexivity.
      * rewrite handlePacket_other by exact Hne. reflexivity.
    + (* AddPlayer *)
      destruct (N.eqb_spec id' id) as [->|Hne].
      * rewrite handlePacket_add. reflexivity.
      * rewrite handlePacket_other by exact Hne. reflexivity.
    + (* MovePlayer *)
      simpl removed_in. simpl apply_moves. destruct (N.eqb_spec id' id) as [->|Hne].
      * rewrite (proj1 (handlePacket_move m id p)).
        destruct (m !! id) as [[]|]; reflexivity.
      * rewrite handlePacket_other by exact Hne. reflexivity.
    + (* MoveActorAbsolute *)
      simpl removed_in. simpl apply_moves. destruct (N.eqb_spec id' id) as [->|Hne].
      * rewrite (proj2 (handlePacket_move m id p)).
        destruct (m !! id) as [[]|]; reflexivity.
      * rewrite handlePacket_other by exact Hne. reflexivity.
    + (* MoveActorDelta *)
      simpl removed_in. simpl apply_moves. destruct (N.eqb_spec id' id) as [->|Hne].
      * rewrite handlePacket_delta. destruct (m !! id) as [[]|]; reflexivity.
      * rewrite handlePacket_other by exact Hne. reflexivity.
Qed.

Lemma handlePacket_keyed m pk :
  keyed_by_runtime_id m → keyed_by_runtime_id (handlePacket m pk).1.
Proof.
  intros Hm id q.
  destruct pk as [[ty nt src msg ps|es|id'|n g id' p|id' ev|id' p|id' p|id' p|k]|];
    try (rewrite handlePacket_other by exact I; apply Hm).
  - destruct (decide (id' = id)) as [->|Hne].
    + rewrite handlePacket_remove. discriminate.
    + rewrite handlePacket_other by exact Hne. apply Hm.
  - destruct (decide (id' = id)) as [->|Hne].
    + rewrite handlePacket_add. intros [= <-]. reflexivity.
    + rewrite handlePacket_other by exact Hne. apply Hm.
  - destruct (decide (id' = id)) as [->|Hne].
    + rewrite (proj1 (handlePacket_move m id p)).
      destruct (m !! id) as [p0|] eqn:E; [|discriminate].
      intros [= <-]. simpl. apply Hm, E.
    + rewrite handlePacket_other by exact Hne. apply Hm.
  - destruct (decide (id' = id)) as [->|Hne].
    + rewrite (proj2 (handlePacket_move m id p)).
      destruct (m !! id) as [p0|] eqn:E; [|discriminate].
      intros [= <-]. simpl. apply Hm, E.
    + rewrite handlePacket_other by exact Hne. apply Hm.
  - destruct (decide (id' = id)) as [->|Hne].
    + rewrite handlePacket_delta.
      destruct (m !! id) as [p0|] eqn:E; [|discriminate].
      intros [= <-]. simpl. apply Hm, E.
    + rewrite handlePacket_other by exact Hne. apply Hm.
Qed.

Lemma dispatch_keyed m pks :
  keyed_by_runtime_id m → keyed_by_runtime_id (dispatch m pks).1.
Proof.
  revert m. induction pks as [|pk rest IH]; intros m Hm; [exact Hm|].
  rewrite dispatch_cons. apply IH, handlePacket_keyed, Hm.
Qed.
End dispatcher_facts.

(** The last [AddPlayer] for [id] splits the packets: nothing after it
    adds [id] again. *)
Lemma last_add_split {F} id (pks : list (option (Packet F))) username uniqueID position after :
  last_add id pks = Some (username, uniqueID, position, after) →
  ∃ before, pks = before ++ Some (AddPlayer username uniqueID id position) :: after
            ∧ last_add id after = None.
Proof.
  induction pks as [|pk rest IH]; simpl; [discriminate|].
  destruct (last_add id rest) as [found|] eqn:E.
  - intros [= ->]. destruct (IH eq_refl) as (before & -> & Hafter).
    exists (pk :: before). split; [reflexivity|exact Hafter].
  - destruct pk as [[| | |n g id' p| | | | |]|]; try discriminate.
    destruct (N.eqb_spec id' id) as [->|]; [|discriminate].
    intros [= -> -> -> ->]. exists []. split; [reflexivity|exact E].
Qed.

Section registry_claims.
Context {F : Type} {F32 : Float32 F} {ext : Imports}.
Implicit Types (m : gmap N (Player F)) (id : N).

(** C1, as amended.  After any sequence of packets dispatched from the
    empty registry, the registry holds for each runtime identifier what
    [entity_after] describes: nothing unless the identifier was added and
    its last add was not followed by a remove; otherwise a record with the
    name and global identifier of that last add, and the position obtained
    from the position of that add by applying in order the moves and
    delta-moves for the identifier that follow it, where an absolute move
    to a position approximately equal to the one held leaves the held one
    in place. *)
Theorem C1_registry_after_replay (pks : list (option (Packet F))) id :
  (dispatch ∅ pks).1 !! id = entity_after move_unless_approx id pks.
Proof.
  rewrite dispatch_lookup. unfold entity_after.
  destruct (last_add id pks) as [[[[n g] p] after]|]; [reflexivity|].
  rewrite lookup_empty. destruct (removed_in id pks); reflexivity.
Qed.

(** C2, as amended.  An absolute move (of either kind) for an entity of
    the registry, to a position approximately equal to the one stored,
    logs nothing and leaves the registry as it was: the stored position
    is kept, the new reading is dropped. *)
Theorem C2_approx_equal_move_keeps_position m id (p : Player F) (new : Vec3 F) :
  m !! id = Some p →
  Vec3_ApproxEqual (Position p) new = true →
  handlePacket m (Some (MovePlayer id new)) = (m, [])
  ∧ handlePacket m (Some (MoveActorAbsolute id new)) = (m, []).
Proof.
  intros Hp Heq. simpl. rewrite Hp, Heq. split; reflexivity.
Qed.

(** C3.  A delta-move for an entity of the registry with position P and
    delta D leaves that entity stored with position P+D, the sum taken
    component by component (each component with float32 addition); the
    other fields of the record, the other entries of the registry and the
    log are untouched. *)
Theorem C3_delta_move_adds m id (p : Player F) (delta : Vec3 F) :
  m !! id = Some p →
  let m' := (handlePacket m (Some (MoveActorDelta id delta))).1 in
  m' !! id = Some (mkPlayer (Username p) (EntityRuntimeID p) (EntityGlobalID p)
                     (mkVec3 (f32_add (v0 (Position p)) (v0 delta))
                             (f32_add (v1 (Position p)) (v1 delta))
                             (f32_add (v2 (Position p)) (v2 delta))))
  ∧ (∀ id', id' ≠ id → m' !! id' = m !! id')
  ∧ (handlePacket m (Some (MoveActorDelta id delta))).2 = [].
Proof.
  intros Hp. simpl. rewrite Hp. simpl. split; [apply lookup_insert_eq|].
  split; [|reflexivity]. intros id' Hne. apply lookup_insert_ne. congruence.
Qed.

(** C4.  A move, delta-move or remove whose runtime identifier is not in
    the registry leaves the registry as it is and logs nothing; the
    dispatcher has no error result and no path on which the missing
    record is used. *)
Theorem C4_unknown_id_is_noop m id (v : Vec3 F) :
  m !! id = None →
  handlePacket m (Some (MovePlayer id v)) = (m, [])
  ∧ handlePacket m (Some (MoveActorAbsolute id v)) = (m, [])
  ∧ handlePacket m (Some (MoveActorDelta id v)) = (m, [])
  ∧ handlePacket m (Some (RemoveEntity id)) = (m, []).
Proof.
  intros Hnone. simpl. rewrite Hnone. repeat split.
Qed.

(** C5.  In every registry reached from the empty one by dispatching any
    sequence of packets (of any kind, [nil] included), two live records
    with the same runtime identifier are one and the same entry: each
    record is stored under its own runtime identifier, so a runtime
    identifier has at most one live record. *)
Theorem C5_one_record_per_runtime_id (pks : list (option (Packet F))) id1 id2
    (p1 p2 : Player F) :
  (dispatch ∅ pks).1 !! id1 = Some p1 →
  (dispatch ∅ pks).1 !! id2 = Some p2 →
  EntityRuntimeID p1 = EntityRuntimeID p2 →
  id1 = id2 ∧ p1 = p2.
Proof.
  intros H1 H2 Hsame.
  assert (Hkeyed : keyed_by_runtime_id (dispatch (∅ : gmap N (Player F)) pks).1).
  { apply dispatch_keyed. intros id p. rewrite lookup_empty. discriminate. }
  assert (id1 = id2) as ->.
  { rewrite <- (Hkeyed _ _ H1), <- (Hkeyed _ _ H2). exact Hsame. }
  split; [reflexivity|congruence].
Qed.

(** An absolute move to a position that is not approximately equal to the
    stored one replaces it, and logs nothing either. *)
Lemma move_replaces_when_not_approx m id (p : Player F) (new : Vec3 F) :
  m !! id = Some p →
  Vec3_ApproxEqual (Position p) new = false →
  handlePacket m (Some (MovePlayer id new)) = (<[id := set_Position p new]> m, [])
  ∧ handlePacket m (Some (MoveActorAbsolute id new)) = (<[id := set_Position p new]> m, []).
Proof.
  intros Hp Hne. simpl. rewrite Hp, Hne. split; reflexivity.
Qed.

(** Where approximately equal numbers are equal, keeping the stored
    position and replacing it are the same, and the registry is the one
    obtained by replacing the position at every absolute move. *)
Lemma registry_after_replay_exact (pks : list (option (Packet F))) id :
  (∀ a b : F, FloatEqual a b = true → a = b) →
  (dispatch ∅ pks).1 !! id = entity_after move_replaces id pks.
Proof.
  intros Hexact. rewrite dispatch_lookup. unfold entity_after.
  assert (Hmove : ∀ held new : Vec3 F, move_unless_approx held new = new).
  { intros [a0 a1 a2] [b0 b1 b2]. unfold move_unless_approx, Vec3_ApproxEqual. simpl.
    destruct (FloatEqual a0 b0) eqn:E0; [|reflexivity].
    destruct (FloatEqual a1 b1) eqn:E1; [|reflexivity].
    destruct (FloatEqual a2 b2) eqn:E2; [|reflexivity]. simpl.
    rewrite (Hexact _ _ E0), (Hexact _ _ E1), (Hexact _ _ E2). reflexivity. }
  assert (Hsame : ∀ l position,
            apply_moves move_unless_approx id position l
            = apply_moves move_replaces id position l).
  { induction l as [|[[| | | | |id' v|id' v|id' v|]|] l IH]; intros position; simpl;
      rewrite ?Hmove; try apply IH; reflexivity. }
  destruct (last_add id pks) as [[[[n g] p] after]|].
  - rewrite Hsame. reflexivity.
  - rewrite lookup_empty. destruct (removed_in id pks); reflexivity.
Qed.

(** C10.  Dispatching [nil] returns the registry as it is and logs
    nothing, whatever the registry: the body of [handlePacket] is guarded
    by [pk != nil]. *)
Theorem C10_nil_packet_is_noop m : handlePacket m None = (m, []).
Proof. reflexivity. Qed.
End registry_claims.

(** * Properties of the receive loop *)

Section rx_claims.
Context {F : Type} {F32 : Float32 F} {ext : Imports}.

Lemma log_entries_nil (w : World F) : log_entries w [] = w.
Proof. destruct w. unfold log_entries. simpl. rewrite app_nil_r. reflexivity. Qed.

(** Reads that succeed are dispatched in order; the loop goes on with
    the reads that follow. *)
Lemma rx_for_packets (pks : list (option (Packet F))) reads (w : World F) :
  rx_for (map Read_ok pks ++ reads) w
  = rx_for reads (log_entries (set_players w (dispatch (players w) pks).1)
                              (dispatch (players w) pks).2).
Proof.
  revert w. induction pks as [|pk rest IH]; intros w.
  - simpl. rewrite log_entries_nil. destruct w; reflexivity.
  - simpl. destruct (handlePacket (players w) pk) as [m out] eqn:E.
    rewrite IH. simpl. destruct (dispatch m rest) as [m' out']. simpl.
    unfold log_entries, set_players. simpl. rewrite app_assoc. reflexivity.
Qed.

(** C6.  When a read fails after any number of packets, the loop panics
    with the disconnect error (after logging it at error level) if and
    only if [errors.Unwrap] of the error is a [minecraft.DisconnectError];
    on every other error it clears [loopRunning] and returns, with no
    error value and nothing logged for the error.  The deferred
    [wg.Done()] runs on both paths, and the reads after the failing one
    are never made. *)
Theorem C6_receive_error (pks : list (option (Packet F))) (err : error)
    (rest : list (ReadResult F)) (w : World F) :
  let out := eventRxLoop (map Read_ok pks ++ Read_err err :: rest) w in
  let w1 := log_entries w [Infof "RX Event loop started\n" []] in
  let w2 := log_entries (set_players w1 (dispatch (players w) pks).1)
                        (dispatch (players w) pks).2 in
  out = match errors_Unwrap err with
        | Some (DisconnectError disconnect) =>
            RxPanic disconnect
              (wg_Done (log_entries w2 [Errorf "Disconnected: %s\n" [ArgString disconnect]]))
        | _ => RxReturn (wg_Done (set_loopRunning w2 false))
        end
  ∧ ((∃ disconnect w', out = RxPanic disconnect w')
     ↔ (∃ disconnect, errors_Unwrap err = Some (DisconnectError disconnect))).
Proof.
  cbv zeta. unfold eventRxLoop. rewrite rx_for_packets. simpl.
  unfold as_DisconnectError.
  destruct (errors_Unwrap err) as [[d|t e|t]|]; simpl; (split; [reflexivity|]);
    split; try (intros (d' & w' & [=]); fail); try (intros (d' & [=]); fail).
  - intros _. exists d. reflexivity.
  - intros _. eexists _, _. reflexivity.
Qed.
End rx_claims.

(** * Properties of the send loop *)

Section tx_claims.
Context {F : Type} {F32 : Float32 F} {ext : Imports}.
Implicit Types (st : TxState * World F) (a : Action F) (sched : list (Action F)).

Lemma run_app sched1 sched2 st :
  run (sched1 ++ sched2) st = run sched2 (run sched1 st).
Proof. revert st. induction sched1 as [|a rest IH]; intros st; [reflexivity|apply IH]. Qed.

Lemma act_inv a st : tx_inv st → tx_inv (act a st).
Proof.
  destruct st as [[p h] w]. destruct a as [|ms| | |pk|]; simpl.
  - unfold eventTxLoop_step. destruct p; simpl.
    + intros ->. left. reflexivity.
    + destruct (loopRunning w) eqn:Hrun; simpl.
      * intros [->|[_ Hf]]; [reflexivity|congruence].
      * intros [->|[-> _]]; [left|right]; reflexivity.
    + destruct (until <=? clock w)%N; simpl; intros ->; reflexivity.
    + destruct (stop w); simpl; intros ->; reflexivity.
    + intros ->. split; reflexivity.
    + intros [-> Hf]. right. split; [reflexivity|exact Hf].
    + intros Hh. exact Hh.
  - destruct p; simpl; tauto.
  - destruct (stop w); destruct p; simpl; tauto.
  - destruct p; simpl; tauto.
  - destruct (handlePacket (players w) pk) as [m out]. destruct p; simpl; tauto.
  - destruct p; simpl; tauto.
Qed.

Lemma run_inv sched st : tx_inv st → tx_inv (run sched st).
Proof.
  revert st. induction sched as [|a rest IH]; intros st Hst; [exact Hst|].
  simpl. apply IH, act_inv, Hst.
Qed.

Lemma tx_inv_histories st : tx_inv st → history st.1 ∈ tx_histories.
Proof.
  destruct st as [[p h] w]. simpl. unfold tx_histories.
  destruct p; simpl; intros Hh;
    repeat match goal with
           | Hx : _ ∨ _ |- _ => destruct Hx as [Hx|Hx]
           | Hx : _ ∧ _ |- _ => destruct Hx as [Hx _]
           end; subst h;
    repeat first [apply list_elem_of_here | apply list_elem_of_further].
Qed.

(** In each of the histories of the loop, a [Closed] comes right after a
    [Received]. *)
Lemma closed_after_received (h : list TxEvent) :
  h ∈ tx_histories →
  ∀ before after, h = before ++ Closed :: after → ∃ b, before = b ++ [Received].
Proof.
  unfold tx_histories. intros Hin before after Heq.
  repeat (apply elem_of_cons in Hin as [->|Hin]);
    [..|apply elem_of_nil in Hin; contradiction];
    repeat match goal with
           | Hx : _ = ?l ++ Closed :: _ |- _ => destruct l as [|? l]; simplify_eq/=
           end;
    exists [Started; Slept]; reflexivity.
Qed.

Lemma act_stopping c n a st :
  stopping c n st → stopping c (if is_RunTx a then pred n else n) (act a st).
Proof.
  destruct st as [[p h] w].
  destruct n as [|[|[|[|n]]]]; simpl; [| | | |intros []].
  - intros (-> & -> & Hc). destruct a; simpl;
      try (destruct (handlePacket (players w) pk) as [m out]); simpl;
      repeat split; try destruct (stop w); simpl; lia.
  - intros (-> & -> & Hf & Hc). destruct a; simpl;
      try (destruct (handlePacket (players w) pk) as [m out]); simpl;
      try (repeat split; try destruct (stop w); simpl; solve [assumption | lia]).
    unfold eventTxLoop_step. simpl. rewrite Hf. simpl. repeat split. exact Hc.
  - intros (-> & -> & Hf & Hc). destruct a; simpl;
      try (destruct (handlePacket (players w) pk) as [m out]); simpl;
      repeat split; try destruct (stop w); simpl; solve [assumption | lia].
  - intros (-> & -> & Hc). destruct a; simpl;
      try (destruct (handlePacket (players w) pk) as [m out]); simpl;
      repeat split; try destruct (stop w); simpl; lia.
Qed.

Lemma run_stopping c sched : ∀ n st,
  stopping c n st → n ≤ tx_turns sched → stopping c 0 (run sched st).
Proof.
  induction sched as [|a rest IH]; intros n st Hst Hn.
  - unfold tx_turns in Hn. simpl in Hn. assert (n = 0) as -> by lia. exact Hst.
  - simpl. apply (IH (if is_RunTx a then pred n else n)); [apply act_stopping, Hst|].
    unfold tx_turns in *. destruct a; simpl in *;
      rewrite ?filter_cons_True, ?filter_cons_False in Hn by (simpl; congruence);
      simpl in Hn; lia.
Qed.

(** C7.  In every run of the loop among the other goroutines: a
    [conn.Close()] of the loop comes right after a receive on [stop], so
    the loop never closes the connection without having received the
    shutdown signal; and once the last thing the loop did is that receive,
    its next three steps, whatever the other goroutines do in between, are
    to clear [loopRunning], to close the connection, and to leave the loop
    and return. *)
Theorem C7_shutdown_closes_then_returns (w0 : World F) sched1 sched2 :
  let st1 := run sched1 (tx0, w0) in
  let st2 := run sched2 st1 in
  (∀ before after,
     history st1.1 = before ++ Closed :: after → ∃ b, before = b ++ [Received])
  ∧ (last (history st1.1) = Some Received →
     3 ≤ tx_turns sched2 →
     pc st2.1 = TxReturned
     ∧ history st2.1 = history st1.1 ++ [Closed; Returned]
     ∧ closes st1.2 < closes st2.2).
Proof.
  cbv zeta.
  assert (Hinv : tx_inv (run sched1 (tx0, w0))) by (apply run_inv; reflexivity).
  split; [apply closed_after_received, tx_inv_histories, Hinv|].
  intros Hlast Hturns.
  destruct (run sched1 (tx0, w0)) as [[p h] w] eqn:E1. simpl in Hlast |- *.
  assert (Hstop : ∃ n, n ≤ 3 ∧ stopping (closes w) n ({| pc := p; history := h |}, w)
                       ∧ h = [Started; Slept; Received]).
  { destruct p; simpl in Hinv;
      repeat match goal with
             | Hx : _ ∨ _ |- _ => destruct Hx as [Hx|Hx]
             | Hx : _ ∧ _ |- _ => destruct Hx as [Hx ?]
             end; subst h; try discriminate.
    - exists 3. simpl. repeat split; lia.
    - exists 2. simpl. repeat split; solve [assumption | lia]. }
  destruct Hstop as (n & Hn & Hstop & ->).
  pose proof (run_stopping _ sched2 n _ Hstop ltac:(lia)) as Hend.
  destruct (run sched2 _) as [s2 w2]. simpl in Hend |- *.
  destruct Hend as (-> & -> & Hc). auto.
Qed.

Lemma act_waiting a st : is_SendStop a = false → waiting st → waiting (act a st).
Proof.
  destruct st as [[p h] w]. destruct a as [|ms| | |pk|]; simpl; try discriminate;
    intros _ [Hstop Hh].
  - unfold eventTxLoop_step. destruct p; simpl in *; try contradiction.
    + subst h. auto.
    + subst h. destruct (loopRunning w); simpl; auto.
    + subst h. destruct (until <=? clock w)%N; simpl; auto.
    + rewrite Hstop. simpl. auto.
    + auto.
  - destruct p; simpl in *; auto.
  - destruct p; simpl in *; auto.
  - destruct (handlePacket (players w) pk) as [m out]. destruct p; simpl in *; auto.
  - destruct p; simpl in *; auto.
Qed.

(** Without a send on [stop], the loop never gets past the [select] of
    its first iteration: it does not receive, does not close, and returns
    only if [loopRunning] was cleared before its first test. *)
Lemma run_waiting sched st : no_signal sched = true → waiting st → waiting (run sched st).
Proof.
  revert st. induction sched as [|a rest IH]; intros st Hno Hw; [exact Hw|].
  unfold no_signal in Hno. simpl in Hno. apply andb_true_iff in Hno as [Ha Hrest].
  simpl. apply IH; [exact Hrest|]. apply act_waiting; [|exact Hw].
  destruct (is_SendStop a); [discriminate|reflexivity].
Qed.

(** Once in the [select] with nothing buffered in [stop], the loop stays
    there for as long as nothing is sent, however much time passes and
    whether or not [eventRxLoop] has cleared [loopRunning]. *)
Lemma tx_blocked_in_select sched (s : TxState) (w : World F) :
  pc s = TxSelect → history s = [Started; Slept] → stop w = 0 →
  no_signal sched = true →
  pc (run sched (s, w)).1 = TxSelect ∧ history (run sched (s, w)).1 = [Started; Slept].
Proof.
  intros Hpc Hh Hstop Hno. revert w Hstop.
  induction sched as [|a rest IH]; intros w Hstop; [split; assumption|].
  unfold no_signal in Hno. simpl in Hno. apply andb_true_iff in Hno as [Ha Hrest].
  specialize (IH Hrest). destruct a as [|ms| | |pk|]; simpl in *; try discriminate.
  - unfold eventTxLoop_step. rewrite Hpc, Hstop. apply IH, Hstop.
  - apply IH, Hstop.
  - apply IH, Hstop.
  - destruct (handlePacket (players w) pk) as [m out]. apply IH, Hstop.
  - apply IH, Hstop.
Qed.
End tx_claims.

(** * Properties of the supervisor *)

Section supervisor_claims.
Context {F : Type} {ext : Imports}.

Lemma dial_loop_failures (errs : list error) (rest : list (option error)) :
  dial_loop (F:=F) (map Some errs ++ rest)
  = (flat_map failed_attempt errs ++ (dial_loop (F:=F) rest).1,
     (dial_loop (F:=F) rest).2).
Proof.
  induction errs as [|err errs IH]; simpl; [destruct (dial_loop (F:=F) rest); reflexivity|].
  rewrite IH. reflexivity.
Qed.

Lemma dial_loop_all_failed (errs : list error) :
  dial_loop (F:=F) (map Some errs) = (flat_map failed_attempt errs, false).
Proof.
  induction errs as [|err errs IH]; simpl; [reflexivity|]. rewrite IH. reflexivity.
Qed.

Lemma dial_error_entry_level err : entry_level (dial_error_entry (F:=F) err) = ErrorLevel.
Proof. unfold dial_error_entry. destruct (as_DisconnectError err); reflexivity. Qed.

Lemma failures_error_entries (errs : list error) (tail : list (MainEvent F)) :
  error_entries (flat_map failed_attempt errs ++ tail)
  = map dial_error_entry errs ++ error_entries tail.
Proof.
  induction errs as [|err errs IH]; [reflexivity|].
  simpl. rewrite dial_error_entry_level. simpl. f_equal. exact IH.
Qed.

Lemma failures_sleeps (errs : list error) (tail : list (MainEvent F)) :
  sleeps (flat_map failed_attempt errs ++ tail)
  = replicate (length errs) retry_delay ++ sleeps tail.
Proof.
  induction errs as [|err errs IH]; [reflexivity|].
  simpl. f_equal. exact IH.
Qed.

Lemma failures_started g (errs : list error) (tail : list (MainEvent F)) :
  started g (flat_map failed_attempt errs ++ tail) = started g tail.
Proof. induction errs as [|err errs IH]; [reflexivity|]. simpl. exact IH. Qed.

(** C9.  When the first n calls of [Dial] fail and the next one succeeds,
    [main] logs one error entry per failed call, sleeps the same fixed
    delay (one second) after each of them, and then starts [eventRxLoop]
    and [eventTxLoop] once each; this holds for every n.  As long as
    every call fails, [main] goes on dialling: after n failures it has
    logged n entries and slept n times and has not given up. *)
Theorem C9_connect_retries address (errs : list error) (rest : list (option error)) :
  let events := connect_and_run (F:=F) address (map Some errs ++ None :: rest) in
  events = Logs (Infof "Connecting to %s\n" [ArgString address])
           :: flat_map failed_attempt errs ++ Dials :: start_session
  ∧ error_entries events = map dial_error_entry errs
  ∧ sleeps events = replicate (length errs) retry_delay
  ∧ started go_eventRxLoop events = 1
  ∧ started go_eventTxLoop events = 1
  ∧ connect_and_run (F:=F) address (map Some errs)
    = Logs (Infof "Connecting to %s\n" [ArgString address])
      :: flat_map failed_attempt errs.
Proof.
  cbv zeta. unfold connect_and_run.
  rewrite dial_loop_failures, dial_loop_all_failed. simpl.
  rewrite <- !app_assoc. simpl.
  rewrite failures_error_entries, failures_sleeps, !failures_started. simpl.
  rewrite !app_nil_r. repeat split.
Qed.
End supervisor_claims.

(** * Runs on binary32 *)

Section runs.
Import Binary32 Sample Scenario.

(** The numbers of the instance: [Epsilon] is the binary32 number nearest
    to 1e-10 (it is within half a unit in the last place), [MinNormal] is
    2^-126, and 2^-100 is approximately equal to 0 for [FloatEqual]. *)
Example binary32_constants :
  (Z.abs (14411519 * 10 ^ 10 - 2 ^ 57) * 2 ≤ 10 ^ 10)%Z
  ∧ (8388608 * 2 ^ 23 = 2 ^ (149 - 126) * 2 ^ 23)%Z
  ∧ FloatEqual zero tiny = true
  ∧ FloatEqual zero one = false
  ∧ add one two = three.
Proof. vm_compute. repeat split; discriminate. Qed.

(** The scenario of section 8 of the specification: after the third
    packet Alice is at (1,1,0), after the fourth the registry is empty. *)
Example add_move_delta_remove_replay :
  (dispatch ∅ (take 3 add_move_delta_remove)).1 !! 1%N
  = Some (mkPlayer "Alice" 1 7 (mkVec3 one one zero))
  ∧ (dispatch ∅ add_move_delta_remove).1 = ∅.
Proof. split; reflexivity. Qed.

(** C1 fails as stated.  Alice is added at the origin and then moved to a
    position 2^-100 away: replacing the position at every move gives the
    new position, the registry still holds the origin. *)
Lemma C1_counterexample :
  (dispatch ∅ add_then_nudge).1 !! 1%N = Some alice
  ∧ entity_after move_replaces 1%N add_then_nudge = Some (set_Position alice nudged)
  ∧ (dispatch ∅ add_then_nudge).1 !! 1%N
    ≠ entity_after move_replaces 1%N add_then_nudge.
Proof.
  split; [reflexivity|]. split; [reflexivity|].
  intros Heq. vm_compute in Heq. discriminate.
Qed.

(** C2 fails as stated.  Alice is stored at the origin and an absolute
    move reports her 2^-100 away, which is approximately equal: nothing is
    logged, and the stored position is not replaced with the new reading. *)
Lemma C2_counterexample :
  registry !! 1%N = Some alice
  ∧ Vec3_ApproxEqual (Position alice) nudged = true
  ∧ (handlePacket registry (Some (MovePlayer 1 nudged))).2 = []
  ∧ (handlePacket registry (Some (MovePlayer 1 nudged))).1 !! 1%N
    ≠ Some (set_Position alice nudged).
Proof.
  split; [reflexivity|]. split; [reflexivity|]. split; [reflexivity|].
  intros Heq. vm_compute in Heq. discriminate.
Qed.

(** The same with a reading that differs from the stored position in the
    sign of a zero only: +0 and -0 are equal for [==], the reading is
    dropped and +0 stays stored. *)
Example signed_zero_move_is_dropped :
  handlePacket registry (Some (MovePlayer 1 (mkVec3 (S754_zero true) zero zero)))
  = (registry, []).
Proof. reflexivity. Qed.

Lemma C2_witness :
  registry !! 1%N = Some alice
  ∧ Vec3_ApproxEqual (Position alice) nudged = true
  ∧ handlePacket registry (Some (MovePlayer 1 nudged)) = (registry, [])
  ∧ handlePacket registry (Some (MoveActorAbsolute 1 nudged)) = (registry, []).
Proof.
  assert (Hin : registry !! 1%N = Some alice) by reflexivity.
  assert (Happrox : Vec3_ApproxEqual (Position alice) nudged = true) by reflexivity.
  exact (conj Hin (conj Happrox
           (C2_approx_equal_move_keeps_position registry 1 alice nudged Hin Happrox))).
Defined.

Lemma C3_witness :
  registry !! 1%N = Some alice
  ∧ (handlePacket registry (Some (MoveActorDelta 1 (mkVec3 one two three)))).1 !! 1%N
    = Some (mkPlayer "Alice" 1 7 (mkVec3 one two three)).
Proof.
  assert (Hin : registry !! 1%N = Some alice) by reflexivity.
  exact (conj Hin
           (proj1 (C3_delta_move_adds registry 1 alice (mkVec3 one two three) Hin))).
Defined.

Lemma C4_witness :
  registry !! 2%N = None
  ∧ handlePacket registry (Some (MovePlayer 2 nudged)) = (registry, [])
  ∧ handlePacket registry (Some (MoveActorAbsolute 2 nudged)) = (registry, [])
  ∧ handlePacket registry (Some (MoveActorDelta 2 nudged)) = (registry, [])
  ∧ handlePacket registry (Some (RemoveEntity 2)) = (registry, []).
Proof.
  assert (Hout : registry !! 2%N = None) by reflexivity.
  exact (conj Hout (C4_unknown_id_is_noop registry 2 nudged Hout)).
Defined.

Lemma C5_witness :
  (dispatch ∅ [add_alice; add_bob]).1 !! 1%N = Some alice
  ∧ EntityRuntimeID alice = EntityRuntimeID alice
  ∧ 1%N = 1%N ∧ alice = alice.
Proof.
  assert (Hin : (dispatch ∅ [add_alice; add_bob]).1 !! 1%N = Some alice) by reflexivity.
  exact (conj Hin (conj eq_refl
           (C5_one_record_per_runtime_id [add_alice; add_bob] 1 1 alice alice
              Hin Hin eq_refl))).
Defined.

Lemma C7_witness :
  last (history (run until_received (tx0, world0)).1) = Some Received
  ∧ 3 ≤ tx_turns then_stopping
  ∧ pc (run then_stopping (run until_received (tx0, world0))).1 = TxReturned
  ∧ history (run then_stopping (run until_received (tx0, world0))).1
    = history (run until_received (tx0, world0)).1 ++ [Closed; Returned]
  ∧ closes (run until_received (tx0, world0)).2
    < closes (run then_stopping (run until_received (tx0, world0))).2.
Proof.
  assert (Hlast : last (history (run until_received (tx0, world0)).1) = Some Received)
    by reflexivity.
  assert (Hturns : 3 ≤ tx_turns then_stopping) by (vm_compute; lia).
  exact (conj Hlast (conj Hturns
           (proj2 (C7_shutdown_closes_then_returns world0 until_received then_stopping)
                  Hlast Hturns))).
Defined.

(** C8 fails on the code.  [eventTxLoop] starts, sleeps its 100 ms and
    enters the [select]; [eventRxLoop] returns on a read error and clears
    [loopRunning]; no interrupt comes.  One minute and six hundred turns
    later the loop is still in the [select] of its first iteration: the
    iteration has not completed, [loopRunning] has not been tested again,
    the connection is not closed and [wg.Wait()] cannot return. *)
Theorem C8_loop_blocks_without_signal :
  let st := run a_minute_without_signal (tx0, world0) in
  no_signal a_minute_without_signal = true
  ∧ tx_turns a_minute_without_signal = 603
  ∧ clock st.2 = 60100%N
  ∧ pc st.1 = TxSelect
  ∧ history st.1 = [Started; Slept]
  ∧ loopRunning st.2 = false
  ∧ closes st.2 = 0
  ∧ wg st.2 = 1%Z.
Proof. vm_compute. repeat split. Qed.
End runs.


(** * More on the dispatcher *)

Section dispatcher_more.
Context {F : Type} {F32 : Float32 F} {ext : Imports}.
Implicit Types (m : gmap N (Player F)) (pk : option (Packet F)) (id : N).

Lemma dispatch_logs_cons m pk pks :
  (dispatch m (pk :: pks)).2
  = (handlePacket m pk).2 ++ (dispatch (handlePacket m pk).1 pks).2.
Proof.
  simpl. destruct (handlePacket m pk) as [m' out]. simpl.
  destruct (dispatch m' pks) as [m'' out']. reflexivity.
Qed.

(** A packet leaves alone the entries of the identifiers it does not name. *)
Lemma handlePacket_frame m pk id :
  packet_id pk ≠ Some id → (handlePacket m pk).1 !! id = m !! id.
Proof.
  intros Hne. apply handlePacket_other.
  destruct pk as [[| | | | | | | |]|]; simpl in *; try exact I; congruence.
Qed.

(** What a packet makes of the entry of an identifier depends on that
    entry only. *)
Lemma handlePacket_local m m' pk id :
  m !! id = m' !! id → (handlePacket m pk).1 !! id = (handlePacket m' pk).1 !! id.
Proof.
  intros Hsame. destruct (decide (packet_id pk = Some id)) as [Hid|Hne];
    [|rewrite !handlePacket_frame by exact Hne; exact Hsame].
  destruct pk as [[ty nt src msg ps|es|id'|n g id' p|id' ev|id' p|id' p|id' p|k]|];
    simpl in Hid; try discriminate; injection Hid as ->.
  - rewrite !handlePacket_remove. reflexivity.
  - rewrite !handlePacket_add. reflexivity.
  - rewrite !(proj1 (handlePacket_move _ id p)), Hsame. reflexivity.
  - rewrite !(proj2 (handlePacket_move _ id p)), Hsame. reflexivity.
  - rewrite !handlePacket_delta, Hsame. reflexivity.
Qed.

(** X1.  The set of runtime identifiers in the registry changes through
    [AddPlayer] and [RemoveEntity] only: an add puts its identifier in, a
    remove takes its identifier out, and every other packet, moves for
    known or unknown identifiers included, leaves the set as it is. *)
Theorem X1_ids_change_by_add_and_remove_only m pk :
  dom (handlePacket m pk).1 =
  match pk with
  | Some (AddPlayer _ _ id _) => {[id]} ∪ dom m
  | Some (RemoveEntity id) => dom m ∖ {[id]}
  | _ => dom m
  end.
Proof.
  destruct pk as [[ty nt src msg ps|es|id|n g id p|id ev|id p|id p|id p|k]|];
    simpl; try reflexivity.
  - destruct (negb _); reflexivity.
  - destruct (m !! id) as [q|] eqn:E; simpl; [apply dom_delete_L|].
    symmetry. apply difference_disjoint_L, disjoint_singleton_r, not_elem_of_dom, E.
  - apply dom_insert_L.
  - destruct (_ =? _)%N; reflexivity.
  - destruct (m !! id) as [q|] eqn:E; [|reflexivity].
    destruct (negb _); simpl; [|reflexivity]. apply dom_insert_lookup_L. eauto.
  - destruct (m !! id) as [q|] eqn:E; [|reflexivity].
    destruct (negb _); simpl; [|reflexivity]. apply dom_insert_lookup_L. eauto.
  - destruct (m !! id) as [q|] eqn:E; [|reflexivity]. simpl.
    apply dom_insert_lookup_L. eauto.
Qed.

Lemma handlePacket_keeps_identity m pk id :
  keeps_entities pk = true →
  identity <$> (handlePacket m pk).1 !! id = identity <$> m !! id.
Proof.
  intros Hkeeps. destruct (decide (packet_id pk = Some id)) as [Hid|Hne];
    [|rewrite handlePacket_frame by exact Hne; reflexivity].
  destruct pk as [[ty nt src msg ps|es|id'|n g id' p|id' ev|id' p|id' p|id' p|k]|];
    simpl in Hid, Hkeeps; try discriminate; injection Hid as ->.
  - rewrite (proj1 (handlePacket_move m id p)). destruct (m !! id); reflexivity.
  - rewrite (proj2 (handlePacket_move m id p)). destruct (m !! id); reflexivity.
  - rewrite handlePacket_delta. destruct (m !! id); reflexivity.
Qed.

(** X2.  As long as no [AddPlayer] and no [RemoveEntity] is dispatched,
    every entity keeps its name, runtime identifier and global identifier,
    and no entity appears or disappears: moves and delta-moves change
    positions only, the other packets change nothing. *)
Theorem X2_identity_changes_by_add_and_remove_only m (pks : list (option (Packet F))) id :
  forallb keeps_entities pks = true →
  identity <$> (dispatch m pks).1 !! id = identity <$> m !! id.
Proof.
  revert m. induction pks as [|pk rest IH]; intros m Hall; [reflexivity|].
  simpl in Hall. apply andb_true_iff in Hall as [Hpk Hrest].
  rewrite dispatch_cons, IH by exact Hrest. apply handlePacket_keeps_identity, Hpk.
Qed.

Lemma handlePacket_levels m pk (e : Entry F) :
  e ∈ (handlePacket m pk).2 →
  entry_level e = DebugLevel ∨ entry_level e = InfoLevel ∨ entry_level e = WarnLevel.
Proof.
  rewrite list_elem_of_In.
  destruct pk as [[ty nt src msg ps|es|id|n g id p|id ev|id p|id p|id p|k]|];
    simpl; try contradiction.
  - destruct (negb _); simpl; [|contradiction]. intros [<-|[]]. auto.
  - intros [<-|Hin]; [auto|]. apply in_map_iff in Hin as (v & <- & _). auto.
  - destruct (m !! id); simpl; [|contradiction]. intros [<-|[]]. auto.
  - intros [<-|[]]. auto.
  - destruct (_ =? _)%N; simpl; [|contradiction].
    intros [<-|Hin]; [auto|]. destruct (m !! id); simpl in Hin; [|contradiction].
    destruct Hin as [<-|[]]. auto.
  - destruct (m !! id); [|contradiction]. destruct (negb _); contradiction.
  - destruct (m !! id); [|contradiction]. destruct (negb _); contradiction.
  - destruct (m !! id); contradiction.
Qed.

(** X3.  Whatever the registry and the packets, the dispatcher logs at the
    levels debug, info and warn only: it never reports an error and never
    ends the process. *)
Theorem X3_dispatcher_never_logs_an_error m (pks : list (option (Packet F))) :
  Forall (λ e, entry_level e = DebugLevel ∨ entry_level e = InfoLevel
               ∨ entry_level e = WarnLevel)
         (dispatch m pks).2.
Proof.
  revert m. induction pks as [|pk rest IH]; intros m; [constructor|].
  rewrite dispatch_logs_cons. apply Forall_app. split; [|apply IH].
  apply Forall_forall. intros e. apply handlePacket_levels.
Qed.

(** X4.  Adding an entity under an identifier the registry does not hold
    and then removing that identifier gives back the registry as it was;
    the two packets log the arrival and the departure under the name of the
    add. *)
Theorem X4_add_then_remove_restores m username uniqueID id (position : Vec3 F) :
  m !! id = None →
  dispatch m [Some (AddPlayer username uniqueID id position); Some (RemoveEntity id)]
  = (m, [Infof "Player %s added to %s\n" [ArgString username; ArgVec position];
         Infof "Player %s went of range\n" [ArgString username]]).
Proof.
  intros Hnone. simpl. rewrite lookup_insert_eq. simpl.
  rewrite delete_insert_id by exact Hnone. reflexivity.
Qed.

(** X5.  Two packets that do not name the same runtime identifier can be
    dispatched in either order: the registry is the same afterwards. *)
Theorem X5_packets_for_different_ids_commute m pk1 pk2 :
  independent pk1 pk2 = true →
  (dispatch m [pk1; pk2]).1 = (dispatch m [pk2; pk1]).1.
Proof.
  intros Hind.
  assert (Hdiff : ∀ id, packet_id pk1 = Some id → packet_id pk2 ≠ Some id).
  { intros id H1 H2. unfold independent in Hind. rewrite H1, H2, N.eqb_refl in Hind.
    discriminate. }
  rewrite !dispatch_cons. simpl. apply map_eq. intros k.
  destruct (decide (packet_id pk1 = Some k)) as [H1|H1].
  - assert (H2 : packet_id pk2 ≠ Some k) by (apply Hdiff, H1).
    rewrite (handlePacket_frame _ pk2 k) by exact H2.
    apply handlePacket_local. symmetry. apply handlePacket_frame, H2.
  - rewrite (handlePacket_frame _ pk1 k) by exact H1.
    apply handlePacket_local, handlePacket_frame, H1.
Qed.

Lemma handlePacket_size m pk :
  size (handlePacket m pk).1 ≤ size m + adds [pk].
Proof.
  destruct pk as [[ty nt src msg ps|es|id|n g id p|id ev|id p|id p|id p|k]|];
    simpl; try lia.
  - destruct (negb _); simpl; lia.
  - destruct (m !! id) as [q|] eqn:E; simpl; [|lia].
    rewrite map_size_delete, E. simpl. lia.
  - rewrite map_size_insert. destruct (m !! id); simpl; lia.
  - destruct (_ =? _)%N; simpl; lia.
  - destruct (m !! id) as [q|] eqn:E; [|simpl; lia].
    destruct (negb _); simpl; [|lia]. rewrite map_size_insert, E. simpl. lia.
  - destruct (m !! id) as [q|] eqn:E; [|simpl; lia].
    destruct (negb _); simpl; [|lia]. rewrite map_size_insert, E. simpl. lia.
  - destruct (m !! id) as [q|] eqn:E; [|simpl; lia]. simpl.
    rewrite map_size_insert, E. simpl. lia.
Qed.

(** X6.  The registry grows by at most one entity per [AddPlayer] packet:
    after any sequence of packets it holds at most as many entities as it
    held before plus the number of adds in the sequence. *)
Theorem X6_registry_size_bound m (pks : list (option (Packet F))) :
  size (dispatch m pks).1 ≤ size m + adds pks.
Proof.
  revert m. induction pks as [|pk rest IH]; intros m; [simpl; lia|].
  rewrite dispatch_cons. specialize (IH (handlePacket m pk).1).
  pose proof (handlePacket_size m pk) as Hstep.
  assert (adds (pk :: rest) = adds [pk] + adds rest) as ->.
  { destruct pk as [[| | | | | | | |]|]; reflexivity. }
  lia.
Qed.

Lemma dispatch_local m m' (pks : list (option (Packet F))) id :
  m !! id = m' !! id →
  (dispatch m pks).1 !! id
  = (dispatch m' (filter (λ pk, names id pk = true) pks)).1 !! id.
Proof.
  revert m m'. induction pks as [|pk rest IH]; intros m m' Hsame; [exact Hsame|].
  rewrite dispatch_cons. destruct (names id pk) eqn:Hn.
  - rewrite filter_cons_True by exact Hn. rewrite dispatch_cons.
    apply IH, handlePacket_local, Hsame.
  - rewrite filter_cons_False by (rewrite Hn; discriminate).
    apply IH. rewrite handlePacket_frame; [exact Hsame|].
    unfold names in Hn. destruct (packet_id pk) as [id'|]; [|discriminate].
    intros [= ->]. rewrite N.eqb_refl in Hn. discriminate.
Qed.

(** X7.  What the registry holds for a runtime identifier after a sequence
    of packets is decided by the packets that name this identifier: all the
    others can be left out of the sequence. *)
Theorem X7_entry_depends_on_own_packets m (pks : list (option (Packet F))) id :
  (dispatch m pks).1 !! id
  = (dispatch m (filter (λ pk, names id pk = true) pks)).1 !! id.
Proof. apply dispatch_local. reflexivity. Qed.
End dispatcher_more.

(** * More on the receive loop *)

Section rx_more.
Context {F : Type} {F32 : Float32 F} {ext : Imports}.

(** X8.  As long as the reads succeed the loop goes on reading: it has
    dispatched the packets in the order read, logged its start and what the
    dispatcher logged, and it has neither returned nor cleared
    [loopRunning] nor called [wg.Done()]. *)
Theorem X8_rx_keeps_reading (pks : list (option (Packet F))) (w : World F) :
  eventRxLoop (map Read_ok pks) w
  = RxReading
      (mkWorld (dispatch (players w) pks).1 (loopRunning w) (stop w) (closes w) (wg w)
               (clock w)
               (logged w ++ Infof "RX Event loop started\n" [] :: (dispatch (players w) pks).2)).
Proof.
  unfold eventRxLoop. rewrite <- (app_nil_r (map Read_ok pks)), rx_for_packets. simpl.
  unfold log_entries, set_players. simpl. rewrite <- app_assoc. reflexivity.
Qed.

Lemma rx_for_frame (reads : list (ReadResult F)) (w : World F) :
  let out := rx_for reads w in
  closes (outcome_world out) = closes w
  ∧ stop (outcome_world out) = stop w
  ∧ clock (outcome_world out) = clock w
  ∧ wg (outcome_world out) = wg w
  ∧ loopRunning (outcome_world out)
    = match out with RxReturn _ => false | _ => loopRunning w end.
Proof.
  revert w. induction reads as [|[pk|err] rest IH]; intros w; simpl.
  - repeat split.
  - destruct (handlePacket (players w) pk) as [m out].
    specialize (IH (log_entries (set_players w m) out)). simpl in IH. exact IH.
  - destruct (as_DisconnectError err); simpl; repeat split.
Qed.

(** X9.  Whatever it reads, [eventRxLoop] never closes the connection,
    never touches the [stop] channel, and calls [wg.Done()] exactly once
    when it ends (by returning or by panicking) and not before; it changes
    [loopRunning] only by clearing it when it returns. *)
Theorem X9_rx_touches_only_its_own (reads : list (ReadResult F)) (w : World F) :
  let out := eventRxLoop reads w in
  closes (outcome_world out) = closes w
  ∧ stop (outcome_world out) = stop w
  ∧ wg (outcome_world out)
    = match out with RxReading _ => wg w | _ => (wg w - 1)%Z end
  ∧ loopRunning (outcome_world out)
    = match out with RxReturn _ => false | _ => loopRunning w end.
Proof.
  cbv zeta. unfold eventRxLoop.
  pose proof (rx_for_frame reads (log_entries w [Infof "RX Event loop started\n" []]))
    as (Hc & Hs & _ & Hw & Hl).
  destruct (rx_for reads _) as [d w'|w'|w']; simpl in *; rewrite ?Hc, ?Hs, ?Hw, ?Hl;
    repeat split.
Qed.

(** X10.  Only an error whose immediate [Unwrap] is the disconnect error
    is fatal: a read that returns a [minecraft.DisconnectError] itself, or
    one wrapped twice, makes the loop clear [loopRunning] and return like
    any other error, without a panic and without an error entry. *)
Theorem X10_rx_unwraps_one_level (pks : list (option (Packet F))) (message text text' : string)
    (rest : list (ReadResult F)) (w : World F) :
  let returned := RxReturn
    (mkWorld (dispatch (players w) pks).1 false (stop w) (closes w) (wg w - 1)%Z (clock w)
             (logged w ++ Infof "RX Event loop started\n" [] :: (dispatch (players w) pks).2)) in
  eventRxLoop (map Read_ok pks ++ Read_err (DisconnectError message) :: rest) w = returned
  ∧ eventRxLoop (map Read_ok pks
                 ++ Read_err (Wrapping text (Wrapping text' (DisconnectError message))) :: rest) w
    = returned.
Proof.
  cbv zeta. unfold eventRxLoop. rewrite !rx_for_packets. simpl.
  unfold wg_Done, set_loopRunning, log_entries, set_players. simpl.
  rewrite <- app_assoc. split; reflexivity.
Qed.
End rx_more.

(** * More on the send loop *)

Section tx_more.
Context {F : Type} {F32 : Float32 F} {ext : Imports}.
Implicit Types (st : TxState * World F) (a : Action F) (sched : list (Action F)).

(** X11.  In every run, what [eventTxLoop] has done is a beginning of
    start, return, or of start, sleep, receive, close, return: it goes
    through the body of its loop at most once, receives from [stop] at most
    once, and calls [conn.Close()] at most once. *)
Theorem X11_tx_loop_body_runs_at_most_once (w0 : World F) sched :
  history (run sched (tx0, w0)).1 ∈ tx_histories.
Proof. apply tx_inv_histories, run_inv. reflexivity. Qed.

(** X12.  With [stop] empty at the start and no send on it, [eventTxLoop]
    never receives and never calls [conn.Close()], however long the run and
    whatever the other goroutines do: it has at most started and slept, or
    it has returned straight from its first test of [loopRunning]. *)
Theorem X12_tx_never_closes_without_signal (w0 : World F) sched :
  stop w0 = 0 →
  no_signal sched = true →
  history (run sched (tx0, w0)).1
  ∈ [[]; [Started]; [Started; Slept]; [Started; Returned]].
Proof.
  intros Hstop Hno.
  assert (Hw : waiting (run sched (tx0, w0))).
  { apply run_waiting; [exact Hno|]. split; [exact Hstop|reflexivity]. }
  destruct (run sched (tx0, w0)) as [[p h] w]. simpl in *. destruct Hw as [_ Hh].
  destruct p; try contradiction; subst h;
    repeat first [apply list_elem_of_here | apply list_elem_of_further].
Qed.

Lemma run_not_yet_slept start sched : ∀ st,
  not_yet_slept start st →
  (clock st.2 + elapsed sched < start + poll_interval)%N →
  not_yet_slept start (run sched st).
Proof.
  induction sched as [|a rest IH]; intros [[p h] w] Hst Hlt; [exact Hst|].
  simpl. apply IH; destruct Hst as [Hclock Hh]; simpl in *.
  - destruct a as [|ms| | |pk|]; simpl.
    + unfold eventTxLoop_step. destruct p; simpl in *; try contradiction.
      * subst h. split; [exact Hclock|reflexivity].
      * subst h. destruct (loopRunning w); simpl;
          (split; [exact Hclock|]); [split; [reflexivity|lia]|reflexivity].
      * destruct Hh as [-> Huntil]. destruct (N.leb_spec until (clock w)); [lia|].
        simpl. split; [exact Hclock|]. split; [reflexivity|exact Huntil].
      * split; assumption.
    + split; [lia|]. destruct p; simpl in *; assumption.
    + split; [destruct (stop w); exact Hclock|]. destruct p; simpl in *; assumption.
    + split; [exact Hclock|]. destruct p; simpl in *; assumption.
    + destruct (handlePacket (players w) pk) as [m out]. simpl.
      split; [exact Hclock|]. destruct p; simpl in *; assumption.
    + split; [exact Hclock|]. destruct p; simpl in *; assumption.
  - destruct a as [|ms| | |pk|]; simpl in *; try lia.
    + unfold eventTxLoop_step. destruct p; simpl in *; try contradiction; try lia.
      * destruct (loopRunning w); simpl; lia.
      * destruct (until <=? clock w)%N; simpl; lia.
    + destruct (stop w); simpl; lia.
    + destruct (handlePacket (players w) pk) as [m out]. simpl. lia.
Qed.

(** X13.  The sleep at the head of the loop is unconditional: in a run
    during which less than 100 ms pass, [eventTxLoop] does not receive from
    [stop] and does not close the connection, even when a value is already
    buffered in [stop] at the start or is sent meanwhile. *)
Theorem X13_tx_sleeps_before_it_listens (w0 : World F) sched :
  (elapsed sched < poll_interval)%N →
  history (run sched (tx0, w0)).1 ∈ [[]; [Started]; [Started; Returned]].
Proof.
  intros Hlt.
  assert (Hst : not_yet_slept (clock w0) (run sched (tx0, w0))).
  { apply run_not_yet_slept; simpl; [split; [lia|reflexivity]|lia]. }
  destruct (run sched (tx0, w0)) as [[p h] w]. simpl in *. destruct Hst as [_ Hh].
  destruct p as [| |until| | | |]; try contradiction;
    [| |destruct Hh as [Hh _]|]; subst h;
    repeat first [apply list_elem_of_here | apply list_elem_of_further].
Qed.

Lemma run_before_tx sched (s : TxState) (w : World F) :
  tx_turns sched = 0 → no_signal sched = true →
  (run sched (s, w)).1 = s ∧ stop (run sched (s, w)).2 = stop w.
Proof.
  revert w. induction sched as [|a rest IH]; intros w Hturns Hno; [split; reflexivity|].
  unfold no_signal in Hno. simpl in Hno. apply andb_true_iff in Hno as [Ha Hrest].
  unfold tx_turns in Hturns.
  destruct a as [|ms| | |pk|]; simpl in Ha;
    [rewrite filter_cons_True in Hturns by reflexivity; discriminate
    | |discriminate| | |];
    rewrite filter_cons_False in Hturns by (simpl; congruence); simpl;
    try (destruct (handlePacket (players w) pk) as [m out]);
    match goal with
    | |- context [run rest (s, ?w')] =>
        destruct (IH w' Hturns Hrest) as [Hs Hstop]; rewrite Hs, Hstop
    end; split; reflexivity.
Qed.

Lemma act_parked a (s : TxState) (w : World F) :
  is_SendStop a = false → stop w = 0 → parked s = true →
  stop (act a (s, w)).2 = 0 ∧ parked (act a (s, w)).1 = true.
Proof.
  destruct s as [p h]. unfold parked. simpl.
  destruct a as [|ms| | |pk|]; simpl; try discriminate; intros _ Hstop Hp;
    try (destruct (handlePacket (players w) pk) as [m out]); simpl;
    try (split; [exact Hstop|exact Hp]).
  unfold eventTxLoop_step. destruct p; simpl in *; try discriminate.
  - destruct (until <=? clock w)%N; simpl; split; solve [assumption | reflexivity].
  - rewrite Hstop. simpl. split; [exact Hstop|reflexivity].
Qed.

Lemma run_parked sched : ∀ (s : TxState) (w : World F),
  no_signal sched = true → stop w = 0 → parked s = true →
  parked (run sched (s, w)).1 = true.
Proof.
  induction sched as [|a rest IH]; intros s w Hno Hstop Hp; [exact Hp|].
  unfold no_signal in Hno. simpl in Hno. apply andb_true_iff in Hno as [Ha Hrest].
  assert (Hs : is_SendStop a = false) by (destruct (is_SendStop a); [discriminate|reflexivity]).
  destruct (act_parked a s w Hs Hstop Hp) as [Hstop' Hp'].
  change (run (a :: rest) (s, w)) with (run rest (act a (s, w))).
  destruct (act a (s, w)) as [s' w']. apply IH; assumption.
Qed.

(** X14.  A clearing of [loopRunning] that comes before [eventTxLoop]
    starts is lost: the loop sets the flag back to true on entry, and if it
    then gets to its first test before anything else clears the flag, it
    goes to sleep and, without a send on [stop], stays asleep or in its
    [select] and never returns, whatever happened before and whatever
    [eventRxLoop] does afterwards. *)
Theorem X14_tx_overwrites_an_earlier_clear (w0 : World F) before sched :
  stop w0 = 0 →
  tx_turns before = 0 →
  no_signal before = true →
  no_signal sched = true →
  parked (run (before ++ RunTx :: RunTx :: sched) (tx0, w0)).1 = true.
Proof.
  intros Hstop Hturns Hno1 Hno2. rewrite run_app.
  destruct (run_before_tx before tx0 w0 Hturns Hno1) as [Htx Hst].
  destruct (run before (tx0, w0)) as [s w]. simpl in Htx, Hst. subst s.
  simpl. apply run_parked; [exact Hno2|simpl; congruence|reflexivity].
Qed.
End tx_more.

(** * More on the supervisor *)

Section supervisor_more.
Context {F : Type} {ext : Imports}.

Lemma dial_loop_any (results : list (option error)) :
  dial_loop (F:=F) results
  = (flat_map failed_attempt (failures_before_success results)
     ++ (if dial_succeeds results then [Dials] else []),
     dial_succeeds results).
Proof.
  induction results as [|[err|] rest IH]; simpl; [reflexivity| |reflexivity].
  rewrite IH. reflexivity.
Qed.

Lemma failures_dials (errs : list error) (tail : list (MainEvent F)) :
  dials (flat_map failed_attempt errs ++ tail) = length errs + dials tail.
Proof. induction errs as [|err errs IH]; [reflexivity|]. simpl. rewrite IH. reflexivity. Qed.

Lemma failures_exits (errs : list error) (tail : list (MainEvent F)) :
  exits (flat_map failed_attempt errs ++ tail) = exits tail.
Proof. induction errs as [|err errs IH]; [reflexivity|]. simpl. exact IH. Qed.

Lemma connect_and_run_any address (results : list (option error)) :
  let events := connect_and_run (F:=F) address results in
  exits events = []
  ∧ dials events
    = length (failures_before_success results) + (if dial_succeeds results then 1 else 0)
  ∧ error_entries events = map dial_error_entry (failures_before_success results)
  ∧ sleeps events = replicate (length (failures_before_success results)) retry_delay
  ∧ ∀ g, started g events = if dial_succeeds results then 1 else 0.
Proof.
  cbv zeta. unfold connect_and_run. rewrite dial_loop_any. simpl.
  rewrite <- !app_assoc.
  rewrite failures_exits, failures_dials, failures_error_entries, failures_sleeps.
  destruct (dial_succeeds results); simpl; repeat split;
    try (intros g; rewrite failures_started; destruct g; reflexivity);
    rewrite ?app_nil_r; try reflexivity; lia.
Qed.

(** X15.  [main] ends the process by itself, with exit code 1, exactly
    when the configuration or a token cannot be obtained (or the fresh
    token cannot be saved), and it has then not called [Dial] at all.  Once
    it is dialling it never exits by itself: it calls [Dial] once per
    failure and once more for the success, if there is one. *)
Theorem X15_main_exits_only_at_startup (s : Startup) :
  let events := main (F:=F) s in
  exits events = (if startup_ok s then [] else [1%Z])
  ∧ dials events
    = if startup_ok s then
        length (failures_before_success (dial_results s))
        + (if dial_succeeds (dial_results s) then 1 else 0)
      else 0.
Proof.
  cbv zeta. unfold main, startup_ok.
  destruct (LoadConfig s) as [address|err]; [|split; reflexivity].
  pose proof (connect_and_run_any address (dial_results s)) as (He & Hd & _).
  destruct (LoadToken s) as [e1|]; [|simpl; rewrite He, Hd; split; reflexivity].
  destruct (RequestLiveToken s) as [e2|]; [split; reflexivity|].
  destruct (SaveToken s) as [e3|]; [split; reflexivity|].
  simpl. rewrite He, Hd. split; reflexivity.
Qed.

(** X16.  For every outcome of the startup calls and every sequence of
    [Dial] results, [main] starts each of its three goroutines at most
    once, and it starts them exactly when the startup succeeds and some
    [Dial] succeeds; the error entries it logs are those of the failed
    dials before the first success, each followed by the same sleep of one
    second. *)
Theorem X16_main_starts_goroutines_once (s : Startup) :
  let events := main (F:=F) s in
  (∀ g, started g events
        = if startup_ok s && dial_succeeds (dial_results s) then 1 else 0)
  ∧ error_entries events
    = (if startup_ok s then map dial_error_entry (failures_before_success (dial_results s))
       else [])
  ∧ sleeps events
    = (if startup_ok s
       then replicate (length (failures_before_success (dial_results s))) retry_delay
       else []).
Proof.
  cbv zeta. unfold main, startup_ok.
  destruct (LoadConfig s) as [address|err]; [|repeat split; intros []; reflexivity].
  pose proof (connect_and_run_any address (dial_results s)) as (_ & _ & He & Hs & Hg).
  destruct (LoadToken s) as [e1|];
    [|simpl; rewrite He, Hs; repeat split; intros g; apply Hg].
  destruct (RequestLiveToken s) as [e2|]; [repeat split; intros []; reflexivity|].
  destruct (SaveToken s) as [e3|]; [repeat split; intros []; reflexivity|].
  simpl. rewrite He, Hs. repeat split. intros g. apply Hg.
Qed.
End supervisor_more.

(** * The session *)

Section session_facts.
Context {F : Type} {F32 : Float32 F} {ext : Imports}.
Implicit Types (x : Session F) (t : Turn F) (turns : list (Turn F)).

Lemma count_app {A} (f : A → bool) (l : list A) (e : A) :
  count f (l ++ [e]) = count f l + (if f e then 1 else 0).
Proof. induction l as [|y l IH]; simpl; [lia|]. rewrite IH. lia. Qed.


(** Nothing runs once the process has ended. *)
Lemma turn_ended t x : s_proc x ≠ Running → turn t x = x.
Proof. unfold turn. destruct (s_proc x); [congruence|reflexivity..]. Qed.

Lemma play_ended turns x : s_proc x ≠ Running → play turns x = x.
Proof.
  induction turns as [|t rest IH]; intros Hp; [reflexivity|].
  simpl. rewrite turn_ended by exact Hp. apply IH, Hp.
Qed.



(** The histories of [eventTxLoop] stay possible when [loopRunning] is
    left as it is or cleared. *)
Lemma tx_inv_flag (s : TxState) (w w' : World F) :
  tx_inv (s, w) →
  loopRunning w' = loopRunning w ∨ loopRunning w' = false →
  tx_inv (s, w').
Proof.
  destruct s as [p h]. simpl. destruct p; simpl; intros Hh Hl; try assumption.
  - destruct Hh as [Hh|[Hh Hf]]; [left; exact Hh|right]. split; [exact Hh|].
    destruct Hl as [Hl|Hl]; congruence.
  - destruct Hh as [Hh Hf]. split; [exact Hh|]. destruct Hl as [Hl|Hl]; congruence.
Qed.

Lemma session0_inv : session_inv (session0 (F:=F)).
Proof. unfold session_inv. simpl. repeat split; try discriminate. Qed.

#[local] Arguments rx_for : simpl never.

Lemma turn_inv t x : session_inv x → session_inv (turn t x).
Proof.
  destruct x as [proc [p h] r [ip ih] w]. unfold turn. simpl.
  destruct proc; [|intros Hx; exact Hx..].
  unfold session_inv. simpl. intros (Htx & Hint & Hstop & Hcl & Hwg & Hex & Hsl).
  destruct t as [|read|b| |ms|]; simpl.
  - (* eventTxLoop *)
    pose proof (act_inv RunTx ({| pc := p; history := h |}, w) Htx) as Htx'. simpl in Htx'.
    destruct (eventTxLoop_step {| pc := p; history := h |} w) as [[s' w']|] eqn:E;
      simpl; [|repeat split; assumption].
    split; [exact Htx'|]. split; [exact Hint|]. clear Htx'.
    unfold eventTxLoop_step in E. simpl in E.
    destruct p; simpl in *;
      try (destruct (loopRunning w)); try (destruct (until <=? clock w)%N);
      try (destruct (stop w) eqn:Es); simplify_eq/=; rewrite ?count_app; simpl;
      repeat split; try discriminate; try lia.
  - (* eventRxLoop *)
    destruct r; simpl.
    + repeat split; try assumption; try discriminate.
    + pose proof (rx_for_frame [read] w) as Hf. cbv zeta in Hf.
      remember (rx_for [read] w) as out eqn:Eo. clear Eo.
      destruct Hf as (Hc & Hs & Hk & Hw & Hl).
      destruct out as [d w'|w'|w']; simpl in *; rewrite ?Hc, ?Hs, ?Hk, ?Hw;
        (split;
         [first [exact (tx_inv_flag (mkTx p h) w w' Htx (or_introl Hl))
                |exact (tx_inv_flag (mkTx p h) w w' Htx (or_intror Hl))]|]);
        repeat split; try assumption; try discriminate;
        destruct p; simpl in *; try exact I; try lia.
    + repeat split; assumption.
  - (* the interrupt goroutine *)
    destruct (interrupt_step b {| ipc := ip; ihistory := ih |} w) as [[i w']|] eqn:E;
      simpl; [|repeat split; assumption].
    unfold interrupt_step in E. simpl in E. unfold int_inv in *. simpl in *.
    destruct ip; simpl in *;
      try (destruct (stop w) eqn:Es); try (destruct (deadline <=? clock w)%N);
      try (destruct b); simplify_eq/=; rewrite ?count_app; simpl;
      repeat split; try assumption; try discriminate; try lia; auto;
      try (destruct p; simpl in *; assumption);
      try (destruct Hint as [->| ->]; simpl in *; auto; lia).
  - (* main *)
    destruct (wg w =? 0)%Z eqn:Ez; simpl; [|repeat split; assumption].
    apply Z.eqb_eq in Ez. repeat split; try assumption; try lia;
      destruct p; simpl in *; assumption.
  - (* time *)
    repeat split; try assumption; destruct p; simpl in *; try assumption; try exact I.
    lia.
  - (* a signal *)
    destruct ip; simpl; repeat split; assumption.
Qed.

Lemma play_inv turns x : session_inv x → session_inv (play turns x).
Proof.
  revert x. induction turns as [|t rest IH]; intros x Hx; [exact Hx|].
  simpl. apply IH, turn_inv, Hx.
Qed.

(** X17.  In every session the counter of the wait group is 2 less one for
    each loop that has ended, so it is never negative; and when [main] has
    returned, both [eventTxLoop] and [eventRxLoop] have ended. *)
Theorem X17_main_returns_after_both_loops turns :
  let x := play turns (session0 (F:=F)) in
  (wg (s_world x) = 2 - (if tx_returned (s_tx x) then 1 else 0)
                      - (if rx_ended (s_rx x) then 1 else 0))%Z
  ∧ match s_proc x with
    | Exited => pc (s_tx x) = TxReturned ∧ s_rx x = RxEnded
    | _ => True
    end.
Proof.
  cbv zeta. pose proof (play_inv turns _ session0_inv) as Hx.
  destruct (play turns session0) as [proc [p h] r i w].
  destruct Hx as (_ & _ & _ & _ & Hwg & Hex & _). simpl in *.
  split; [lia|]. destruct proc; try exact I. specialize (Hex eq_refl).
  destruct p, r; simpl in *; try lia; split; reflexivity.
Qed.

Lemma tx_inv_counts (s : TxState) (w : World F) :
  tx_inv (s, w) → count is_Received (history s) ≤ 1 ∧ count is_Closed (history s) ≤ 1.
Proof.
  intros Hh. apply tx_inv_histories in Hh. simpl in Hh. unfold tx_histories in Hh.
  repeat (apply elem_of_cons in Hh as [->|Hh]); [..|apply elem_of_nil in Hh; contradiction];
    simpl; lia.
Qed.

Lemma int_inv_counts (s : IntState) :
  int_inv s → count is_Sent (ihistory s) ≤ 1 ∧ count is_ClosedConn (ihistory s) ≤ 1.
Proof.
  destruct s as [ip ih]. unfold int_inv. simpl.
  destruct ip; intros Hh; try destruct Hh as [Hh|Hh]; subst ih; simpl; lia.
Qed.

(** X18.  The [stop] channel carries at most one value in a session: the
    interrupt goroutine sends at most once, [eventTxLoop] receives only a
    value that was sent and at most once, and the buffer of capacity 1 is
    never exceeded. *)
Theorem X18_stop_carries_one_value turns :
  let x := play turns (session0 (F:=F)) in
  stop (s_world x) + count is_Received (history (s_tx x))
  = count is_Sent (ihistory (s_int x))
  ∧ count is_Sent (ihistory (s_int x)) ≤ 1.
Proof.
  cbv zeta. pose proof (play_inv turns _ session0_inv) as Hx.
  destruct Hx as (_ & Hint & Hstop & _). split; [exact Hstop|].
  apply int_inv_counts, Hint.
Qed.

(** X19.  The interrupt goroutine is never blocked in its [select]:
    whenever it is there, [stop] is empty, so the send can go through.  Its
    step sends, unless the five seconds have already passed when it comes
    to run and the timer case is taken, in which case it logs the timeout;
    either way it goes on to close the connection. *)
Theorem X19_interrupt_select_never_blocks turns (timer_first : bool) (deadline : N) :
  let x := play turns (session0 (F:=F)) in
  ipc (s_int x) = IntSelect deadline →
  stop (s_world x) = 0
  ∧ interrupt_step timer_first (s_int x) (s_world x)
    = Some (if timer_first && (deadline <=? clock (s_world x))%N
            then (mkInt IntClose [GotSignal; TimedOut],
                  log_entries (s_world x) [Errorf "timeout waiting close" []])
            else (mkInt IntClose [GotSignal; Sent], set_stop (s_world x) 1)).
Proof.
  cbv zeta. pose proof (play_inv turns _ session0_inv) as Hx.
  destruct (play turns session0) as [proc [p h] r [ip ih] w].
  destruct Hx as (_ & Hint & Hstop & _). simpl in *. intros ->.
  unfold int_inv in Hint. simpl in Hint. subst ih. simpl in Hstop.
  assert (Hs : stop w = 0) by lia. split; [exact Hs|].
  unfold interrupt_step. simpl. rewrite Hs.
  destruct timer_first, (deadline <=? clock w)%N; reflexivity.
Qed.

(** X20.  [conn.Close()] is called at most three times in a session: at
    most once by [eventTxLoop], at most once by the interrupt goroutine,
    and once by the deferred call when [main] returns; nothing else
    closes the connection. *)
Theorem X20_close_is_called_up_to_three_times turns :
  let x := play turns (session0 (F:=F)) in
  closes (s_world x)
  = count is_Closed (history (s_tx x)) + count is_ClosedConn (ihistory (s_int x))
    + (if exited (s_proc x) then 1 else 0)
  ∧ closes (s_world x) ≤ 3.
Proof.
  cbv zeta. pose proof (play_inv turns _ session0_inv) as Hx.
  destruct Hx as (Htx & Hint & _ & Hcl & _). split; [exact Hcl|].
  apply tx_inv_counts in Htx as [_ Hc]. apply int_inv_counts in Hint as [_ Hi].
  rewrite Hcl. destruct (exited _); lia.
Qed.

Lemma turn_quiet t x : is_OsSignal t = false → quiet x → quiet (turn t x).
Proof.
  destruct x as [proc [p h] r [ip ih] w]. unfold turn. simpl.
  destruct proc; [|intros _ Hx; exact Hx..].
  unfold quiet. simpl. intros Ht (Hw & Hh & Hip).
  destruct t as [|read|b| |ms|]; simpl; try discriminate.
  - pose proof (act_waiting RunTx ({| pc := p; history := h |}, w) eq_refl Hw) as Hw'.
    simpl in Hw'.
    destruct (eventTxLoop_step {| pc := p; history := h |} w) as [[s' w']|]; simpl;
      (split; [assumption|split; assumption]).
  - destruct r; simpl; [| |split; [assumption|split; assumption]].
    + repeat split; try assumption; apply Hw.
    + pose proof (rx_for_frame [read] w) as Hf. cbv zeta in Hf.
      remember (rx_for [read] w) as out eqn:Eo. clear Eo.
      destruct Hf as (_ & Hs & _ & _ & _).
      destruct out as [d w'|w'|w']; simpl in *; rewrite Hs; repeat split;
        try assumption; apply Hw.
  - subst ih. unfold interrupt_step. simpl. destruct ip; simpl in *; try contradiction;
      (split; [exact Hw|split; [reflexivity|exact I]]).
  - destruct (wg w =? 0)%Z; simpl; repeat split; try assumption; apply Hw.
  - repeat split; try assumption; apply Hw.
Qed.

Lemma play_quiet turns x : no_os_signal turns = true → quiet x → quiet (play turns x).
Proof.
  revert x. induction turns as [|t rest IH]; intros x Hno Hx; [exact Hx|].
  unfold no_os_signal in Hno. simpl in Hno. apply andb_true_iff in Hno as [Ht Hrest].
  simpl. apply IH; [exact Hrest|]. apply turn_quiet; [|exact Hx].
  destruct (is_OsSignal t); [discriminate|reflexivity].
Qed.

(** X21.  Without a signal to the process nothing shuts the session down:
    the interrupt goroutine does nothing, nothing is sent on [stop],
    [eventTxLoop] never receives and never closes the connection, and the
    only [conn.Close()] is the deferred one of [main], which runs only if
    [eventTxLoop] returned straight from its first test of [loopRunning]. *)
Theorem X21_no_shutdown_without_signal turns :
  no_os_signal turns = true →
  let x := play turns (session0 (F:=F)) in
  ihistory (s_int x) = []
  ∧ stop (s_world x) = 0
  ∧ history (s_tx x) ∈ [[]; [Started]; [Started; Slept]; [Started; Returned]]
  ∧ closes (s_world x) = (if exited (s_proc x) then 1 else 0)
  ∧ (if exited (s_proc x) then history (s_tx x) = [Started; Returned] else True).
Proof.
  intros Hno. cbv zeta.
  assert (Hq : quiet (play turns (session0 (F:=F)))).
  { apply play_quiet; [exact Hno|]. repeat split. }
  pose proof (play_inv turns _ (session0_inv)) as Hx.
  destruct (play turns session0) as [proc [p h] r [ip ih] w].
  destruct Hq as ((Hstop & Hh) & Hih & _).
  destruct Hx as (_ & _ & _ & Hcl & Hwg & Hex & _). simpl in *. subst ih.
  split; [reflexivity|]. split; [exact Hstop|].
  destruct p; try contradiction; subst h; simpl in *;
    (split; [repeat first [apply list_elem_of_here | apply list_elem_of_further]|]);
    (split; [lia|]);
    destruct proc; simpl in *; try exact I; try reflexivity;
    specialize (Hex eq_refl); destruct r; simpl in *; lia.
Qed.
End session_facts.

(** * From the interrupt to the return of the send loop *)

Section session_progress.
Context {F : Type} {F32 : Float32 F} {ext : Imports}.
Implicit Types (x : Session F) (t : Turn F) (turns : list (Turn F)).

#[local] Arguments rx_for : simpl never.



(** No turn takes [eventTxLoop] further from its return. *)
Lemma turn_rank t x : session_inv x → rank (turn t x) ≤ rank x.
Proof.
  destruct x as [proc [p h] r [ip ih] w]. unfold turn. simpl.
  destruct proc; [|intros _; reflexivity..].
  intros (Htx & _). unfold rank. simpl in *.
  destruct t as [|read|b| |ms|]; simpl.
  - unfold eventTxLoop_step. simpl.
    destruct p; simpl in *; try (destruct (loopRunning w) eqn:El; simpl; rewrite ?El);
      try (destruct (until <=? clock w)%N; simpl); try (destruct (stop w); simpl);
      try lia.
  - destruct r; simpl; try lia.
    pose proof (rx_for_frame [read] w) as Hf. cbv zeta in Hf.
    remember (rx_for [read] w) as out eqn:Eo. clear Eo.
    destruct Hf as (_ & _ & _ & _ & Hl).
    destruct out as [d w'|w'|w']; simpl in *; rewrite Hl;
      destruct p; try destruct (loopRunning w); lia.
  - unfold interrupt_step. simpl.
    destruct ip; simpl; try (destruct (stop w), (deadline <=? clock w)%N; simpl);
      try destruct b; simpl; lia.
  - destruct (wg w =? 0)%Z; simpl; lia.
  - lia.
  - destruct ip; simpl; lia.
Qed.



Lemma play_rank turns x : session_inv x → rank (play turns x) ≤ rank x.
Proof.
  revert x. induction turns as [|t rest IH]; intros x Hx; [reflexivity|].
  simpl. etransitivity; [apply IH, turn_inv, Hx|apply turn_rank, Hx].
Qed.





End session_progress.

(** * More runs on binary32 *)

Section more_runs.
Import Binary32 Sample Scenario Sessions.

(** A whole shutdown: signal, send, receive, the three calls of
    [conn.Close()], and the return of [main]. *)
Example graceful_shutdown :
  let x := play (interrupted ++ loops_start ++ Elapse 100 :: loops_stop) session0 in
  s_proc x = Exited
  ∧ history (s_tx x) = [Started; Slept; Received; Closed; Returned]
  ∧ ihistory (s_int x) = [GotSignal; Sent; ClosedConn]
  ∧ closes (s_world x) = 3
  ∧ wg (s_world x) = 0%Z.
Proof. vm_compute. repeat split. Qed.

Lemma X2_witness :
  forallb keeps_entities traffic = true
  ∧ identity <$> (dispatch registry traffic).1 !! 1%N = identity <$> registry !! 1%N.
Proof.
  assert (Hall : forallb keeps_entities traffic = true) by reflexivity.
  exact (conj Hall (X2_identity_changes_by_add_and_remove_only registry traffic 1 Hall)).
Defined.

Lemma X4_witness :
  registry !! 2%N = None
  ∧ dispatch registry [Some (AddPlayer "Bob" 8 2 origin); Some (RemoveEntity 2)]
    = (registry, [Infof "Player %s added to %s\n" [ArgString "Bob"; ArgVec origin];
                  Infof "Player %s went of range\n" [ArgString "Bob"]]).
Proof.
  assert (Hnone : registry !! 2%N = None) by reflexivity.
  exact (conj Hnone (X4_add_then_remove_restores registry "Bob" 8 2 origin Hnone)).
Defined.

Lemma X5_witness :
  independent add_bob move_alice = true
  ∧ (dispatch registry [add_bob; move_alice]).1 = (dispatch registry [move_alice; add_bob]).1.
Proof.
  assert (Hind : independent add_bob move_alice = true) by reflexivity.
  exact (conj Hind (X5_packets_for_different_ids_commute registry add_bob move_alice Hind)).
Defined.

Lemma X12_witness :
  stop (world0 (F:=float32)) = 0
  ∧ no_signal a_minute_without_signal = true
  ∧ history (run a_minute_without_signal (tx0, world0)).1
    ∈ [[]; [Started]; [Started; Slept]; [Started; Returned]].
Proof.
  assert (Hstop : stop (world0 (F:=float32)) = 0) by reflexivity.
  assert (Hno : no_signal a_minute_without_signal = true) by (vm_compute; reflexivity).
  exact (conj Hstop (conj Hno
           (X12_tx_never_closes_without_signal world0 a_minute_without_signal Hstop Hno))).
Defined.

Lemma X13_witness :
  (elapsed too_early < poll_interval)%N
  ∧ history (run too_early (tx0, world0)).1 ∈ [[]; [Started]; [Started; Returned]].
Proof.
  assert (Hlt : (elapsed too_early < poll_interval)%N) by (vm_compute; reflexivity).
  exact (conj Hlt (X13_tx_sleeps_before_it_listens world0 too_early Hlt)).
Defined.

Lemma X14_witness :
  stop (world0 (F:=float32)) = 0
  ∧ tx_turns rx_returns_first = 0
  ∧ no_signal rx_returns_first = true
  ∧ no_signal afterwards = true
  ∧ parked (run (rx_returns_first ++ RunTx :: RunTx :: afterwards) (tx0, world0)).1 = true.
Proof.
  assert (Hstop : stop (world0 (F:=float32)) = 0) by reflexivity.
  assert (Hturns : tx_turns rx_returns_first = 0) by reflexivity.
  assert (Hno1 : no_signal rx_returns_first = true) by reflexivity.
  assert (Hno2 : no_signal afterwards = true) by reflexivity.
  exact (conj Hstop (conj Hturns (conj Hno1 (conj Hno2
           (X14_tx_overwrites_an_earlier_clear world0 rx_returns_first afterwards
              Hstop Hturns Hno1 Hno2))))).
Defined.

Lemma X19_witness :
  ipc (s_int (play signalled session0)) = IntSelect 5000
  ∧ stop (s_world (play signalled session0)) = 0
  ∧ interrupt_step true (s_int (play signalled session0)) (s_world (play signalled session0))
    = Some (mkInt IntClose [GotSignal; Sent], set_stop (s_world (play signalled session0)) 1).
Proof.
  assert (Hpc : ipc (s_int (play signalled session0)) = IntSelect 5000) by reflexivity.
  exact (conj Hpc (X19_interrupt_select_never_blocks signalled true 5000 Hpc)).
Defined.

Lemma X21_witness :
  no_os_signal early_read_error = true
  ∧ ihistory (s_int (play early_read_error session0)) = []
  ∧ stop (s_world (play early_read_error session0)) = 0
  ∧ history (s_tx (play early_read_error session0))
    ∈ [[]; [Started]; [Started; Slept]; [Started; Returned]]
  ∧ closes (s_world (play early_read_error session0)) = 1
  ∧ history (s_tx (play early_read_error session0)) = [Started; Returned].
Proof.
  assert (Hno : no_os_signal early_read_error = true) by reflexivity.
  exact (conj Hno (X21_no_shutdown_without_signal early_read_error Hno)).
Defined.

End more_runs.
